(** * Movie query API: the five controller handlers and the store they read

    The controller (movieController.js) has five request handlers.  Each one
    hands one query or aggregation pipeline to the Movie model, a Mongoose
    model over the MongoDB collection "movies", and maps the settled promise
    to an HTTP response.  The handlers are embedded as Rocq functions over
    an explicit store; the query operators and pipeline stages they use are
    embedded as typed list functions that follow what the model layer and
    the store do with them.

    Conventions of the embedding:
    - a JavaScript number / BSON double is a rational extended with NaN and
      the two infinities ([num]): a finite value is kept exactly, where the
      code has the nearest double and overflows to an infinity, so no
      property below may turn on rounding or on the range of doubles;
    - the store's pattern engine is modelled for a fragment of the pattern
      language; what it does with any other pattern text is a parameter
      ([Engine]) of the handler that uses it;
    - a string is a sequence of characters with codes below 256; case
      folding and white space are those of ASCII (plus the no-break space);
    - a document field is absent, null or a value of its schema type;
    - the query parameter [country] is absent or one string. *)

From Stdlib Require Import List Bool Arith ZArith QArith Qreduction Lia.
From Stdlib Require Import Ascii String.
From Stdlib Require Import Permutation Sorted.
Import ListNotations.

Set Implicit Arguments.

Close Scope Q_scope.
Local Open Scope string_scope.
Local Open Scope list_scope.
Local Open Scope nat_scope.

(** ** Numbers *)

Module Num.

(** A JavaScript number.  [Fin q] is a finite value. *)
Inductive num : Type :=
| NaN
| NegInf
| Fin (q : Q)
| PosInf.

Definition isNaN (x : num) : bool :=
  match x with NaN => true | _ => false end.

(** IEEE comparison [x >= y]: false as soon as one side is NaN. *)
Definition geb (x y : num) : bool :=
  match x, y with
  | NaN, _ | _, NaN => false
  | PosInf, _ => true
  | _, NegInf => true
  | NegInf, _ => false
  | _, PosInf => false
  | Fin a, Fin b => Qle_bool b a
  end.

(** The store's sort order on numbers: NaN is the least number, then
    -Infinity, the finite values, +Infinity. *)
Definition rank (x : num) : Z :=
  match x with NaN => 0 | NegInf => 1 | Fin _ => 2 | PosInf => 3 end%Z.

Definition leb (x y : num) : bool :=
  match x, y with
  | Fin a, Fin b => Qle_bool a b
  | _, _ => (rank x <=? rank y)%Z
  end.

(** Addition, as the $avg accumulator sums the ratings; exact on finite
    values (the store rounds each sum to a double). *)
Definition add (x y : num) : num :=
  match x, y with
  | NaN, _ | _, NaN => NaN
  | PosInf, NegInf | NegInf, PosInf => NaN
  | PosInf, _ | _, PosInf => PosInf
  | NegInf, _ | _, NegInf => NegInf
  | Fin a, Fin b => Fin (Qred (a + b)%Q)
  end.

(** Division by a positive count; exact on finite values (the store
    rounds the quotient to a double). *)
Definition div_count (x : num) (n : nat) : num :=
  match x with
  | Fin a => Fin (Qred (a / inject_Z (Z.of_nat n))%Q)
  | other => other
  end.

Definition sum (l : list num) : num := fold_left add l (Fin 0%Q).

Definition of_Z (z : Z) : num := Fin (inject_Z z).

End Num.

Import Num.

(** ** Document fields *)

(** A field of a stored document: missing, explicitly null, or a value. *)
Inductive field (A : Type) : Type :=
| Absent
| Null
| Val (a : A).

Arguments Absent {A}.
Arguments Null {A}.
Arguments Val {A} a.

Definition is_val {A} (f : field A) : bool :=
  match f with Val _ => true | _ => false end.

(** Equality of group keys: a missing key groups with null. *)
Definition key_eqb {A} (eqb : A -> A -> bool) (x y : field A) : bool :=
  match x, y with
  | Val a, Val b => eqb a b
  | Val _, _ | _, Val _ => false
  | _, _ => true
  end.

(** The store's sort order on a field: missing and null sort below every
    value. *)
Definition field_leb {A} (leb : A -> A -> bool) (x y : field A) : bool :=
  match x, y with
  | Val a, Val b => leb a b
  | Val _, _ => false
  | _, _ => true
  end.

(** ** Characters and strings *)

Module Chars.

Definition code (c : ascii) : nat := nat_of_ascii c.

Definition is_digit (c : ascii) : bool :=
  (48 <=? code c) && (code c <=? 57).

Definition is_upper (c : ascii) : bool :=
  (65 <=? code c) && (code c <=? 90).

Definition is_lower (c : ascii) : bool :=
  (97 <=? code c) && (code c <=? 122).

Definition is_alpha (c : ascii) : bool := is_upper c || is_lower c.

Definition is_ascii (c : ascii) : bool := code c <? 128.

Definition to_lower (c : ascii) : ascii :=
  if is_upper c then ascii_of_nat (code c + 32) else c.

Definition digit_value (c : ascii) : Z := (Z.of_nat (code c) - 48)%Z.

(** Value of a run of decimal digits, most significant first. *)
Definition digits_value (ds : list ascii) : Z :=
  fold_left (fun acc c => 10 * acc + digit_value c)%Z ds 0%Z.

(** The longest run of digits at the head of [s], and what follows. *)
Fixpoint span_digits (s : list ascii) : list ascii * list ascii :=
  match s with
  | c :: s' =>
      if is_digit c
      then let (ds, rest) := span_digits s' in (c :: ds, rest)
      else ([], s)
  | [] => ([], [])
  end.

Fixpoint starts_with (p s : list ascii) : bool :=
  match p, s with
  | [], _ => true
  | a :: p', b :: s' => Ascii.eqb a b && starts_with p' s'
  | _ :: _, [] => false
  end.

Definition chars (s : string) : list ascii := list_ascii_of_string s.

Definition dquote : string := String (ascii_of_nat 34) EmptyString.

Definition line_feed : string := String (ascii_of_nat 10) EmptyString.

End Chars.

Import Chars.

(** ** Regular expressions, as the store evaluates $regex *)

Module Regex.

Inductive regex : Type :=
| Void
| Eps
| Chr (p : ascii -> bool)
| Cat (r1 r2 : regex)
| Alt (r1 r2 : regex)
| Star (r : regex).

Fixpoint nullable (r : regex) : bool :=
  match r with
  | Void => false
  | Eps => true
  | Chr _ => false
  | Cat r1 r2 => nullable r1 && nullable r2
  | Alt r1 r2 => nullable r1 || nullable r2
  | Star _ => true
  end.

Fixpoint deriv (c : ascii) (r : regex) : regex :=
  match r with
  | Void => Void
  | Eps => Void
  | Chr p => if p c then Eps else Void
  | Cat r1 r2 =>
      if nullable r1
      then Alt (Cat (deriv c r1) r2) (deriv c r2)
      else Cat (deriv c r1) r2
  | Alt r1 r2 => Alt (deriv c r1) (deriv c r2)
  | Star r1 => Cat (deriv c r1) (Star r1)
  end.

(** Whole-subject match. *)
Fixpoint matches (r : regex) (s : list ascii) : bool :=
  match s with
  | [] => nullable r
  | c :: s' => matches (deriv c r) s'
  end.

Definition Opt (r : regex) : regex := Alt r Eps.

Fixpoint Rep (n : nat) (r : regex) : regex :=
  match n with
  | O => Eps
  | S n' => Cat r (Rep n' r)
  end.

Definition anything : regex := Star (Chr (fun _ => true)).

Definition is_line_feed (c : ascii) : bool := Ascii.eqb c (ascii_of_nat 10).

(** A pattern is the body of the expression and whether [^] opens it and
    [$] closes it.  The store evaluates $regex with PCRE, without the [m]
    option: [^] holds at the start of the subject only, and [$] holds at
    the end of the subject and also before a line feed that ends it. *)
Record pattern : Type := {
  anchored_start : bool;
  anchored_end : bool;
  expression : regex
}.

(** $regex succeeds when the pattern matches somewhere in the subject. *)
Definition test (p : pattern) (s : list ascii) : bool :=
  matches
    (Cat (if anchored_start p then Eps else anything)
         (Cat (expression p)
              (if anchored_end p then Opt (Chr is_line_feed) else anything)))
    s.

(** *** Patterns that arrive as text

    The pattern language is only modelled for ASCII texts built from
    ordinary characters, the wildcard [.] and a backslash in front of a
    metacharacter.  Any other text is outside the fragment and [compile]
    gives [None] for it. *)

Definition is_meta (c : ascii) : bool :=
  existsb (Ascii.eqb c)
    (chars "\^$.[]|()?*+{}").

Definition not_newline (c : ascii) : bool :=
  negb (Ascii.eqb c (ascii_of_nat 10)).

(** What one literal pattern character accepts, with or without the
    [i] option. *)
Definition literal (caseless : bool) (c : ascii) : ascii -> bool :=
  fun x =>
    if caseless then Ascii.eqb (to_lower x) (to_lower c)
    else Ascii.eqb x c.

Fixpoint compile_body (caseless : bool) (p : list ascii) : option regex :=
  match p with
  | [] => Some Eps
  | c :: p' =>
      if Ascii.eqb c "."
      then option_map (Cat (Chr not_newline)) (compile_body caseless p')
      else if Ascii.eqb c "\"
      then match p' with
           | c2 :: p'' =>
               if is_meta c2
               then option_map (Cat (Chr (literal caseless c2)))
                               (compile_body caseless p'')
               else None
           | [] => None
           end
      else if is_meta c || negb (is_ascii c) || Ascii.eqb c zero
      then None
      else option_map (Cat (Chr (literal caseless c)))
                      (compile_body caseless p')
  end.

Definition compile (caseless : bool) (p : string) : option pattern :=
  option_map
    (fun r => {| anchored_start := false; anchored_end := false; expression := r |})
    (compile_body caseless (chars p)).

(** What the store's engine makes of a pattern text: the matcher of the
    pattern, or the error it raises for a text that is no pattern. *)
Inductive compiled : Type :=
| Valid (accepts : list ascii -> bool)
| Invalid (error : string).

(** The engine on the texts outside the fragment, with or without the [i]
    option.  This part of the engine is not modelled: the handler that
    passes a text on to $regex takes it as a parameter. *)
Definition Engine : Type := bool -> string -> compiled.

(** The engine on every text: the fragment as modelled above, the rest as
    the parameter has it. *)
Definition compile_pattern (pcre : Engine) (caseless : bool) (text : string)
  : compiled :=
  match compile caseless text with
  | Some p => Valid (test p)
  | None => pcre caseless text
  end.

End Regex.

Import Regex.

(** ** Number conversions *)

(** White space that [parseFloat] skips in front of the literal. *)
Definition isStrWhiteSpaceChar (c : ascii) : bool :=
  ((9 <=? code c) && (code c <=? 13)) || (code c =? 32) || (code c =? 160).

Fixpoint trimStart (s : list ascii) : list ascii :=
  match s with
  | c :: s' => if isStrWhiteSpaceChar c then trimStart s' else s
  | [] => []
  end.

(** A leading sign: the factor it stands for and the text after it. *)
Definition take_sign (s : list ascii) : Z * list ascii :=
  match s with
  | c :: s' =>
      if Ascii.eqb c "-" then ((-1)%Z, s')
      else if Ascii.eqb c "+" then (1%Z, s')
      else (1%Z, s)
  | [] => (1%Z, [])
  end.

(** The exponent part [e|E, sign, digits] at the head of [s]; 0 when [s] does
    not start with a complete exponent part. *)
Definition exponent_part (s : list ascii) : Z :=
  match s with
  | c :: s' =>
      if Ascii.eqb c "e" || Ascii.eqb c "E"
      then let (sg, s'') := take_sign s' in
           let (ds, _) := span_digits s'' in
           match ds with
           | [] => 0%Z
           | _ => (sg * digits_value ds)%Z
           end
      else 0%Z
  | [] => 0%Z
  end.

(** The global [parseFloat]: the value of the longest prefix of the trimmed
    text that is a decimal literal, NaN when there is none.  The value of
    the literal is kept exactly; the code gets the double nearest to it
    (an infinity beyond the range of doubles). *)
Definition parseFloat (text : string) : num :=
  let (sg, u) := take_sign (trimStart (chars text)) in
  if starts_with (chars "Infinity") u
  then (if (sg <? 0)%Z then NegInf else PosInf)
  else
    let (ip, r1) := span_digits u in
    let (fp, r2) :=
      match r1 with
      | c :: r => if Ascii.eqb c "." then span_digits r else ([], r1)
      | [] => ([], r1)
      end in
    match ip, fp with
    | [], [] => NaN
    | _, _ =>
        let scale := (10 ^ Z.of_nat (List.length fp))%Z in
        let mantissa := (digits_value ip * scale + digits_value fp)%Z in
        Fin (Qred (inject_Z (sg * mantissa) / inject_Z scale
                   * Qpower (inject_Z 10) (exponent_part r2))%Q)
    end.

(** $toInt on a string: an optional sign and decimal digits, nothing else,
    within the 32-bit range; [None] is the conversion error. *)
Definition toInt_string (s : list ascii) : option Z :=
  let (sg, ds) := take_sign s in
  match ds with
  | [] => None
  | _ =>
      if forallb is_digit ds
      then let v := (sg * digits_value ds)%Z in
           if ((- 2 ^ 31 <=? v) && (v <? 2 ^ 31))%Z then Some v else None
      else None
  end.

(** $split: the pieces of [s] between occurrences of the delimiter [d].
    [cur] is the piece being read, reversed; [skip] counts the characters of
    a delimiter occurrence still to pass over. *)
Fixpoint split_from (d s cur : list ascii) (skip : nat) : list (list ascii) :=
  match s with
  | [] => [rev cur]
  | c :: s' =>
      match skip with
      | S k => split_from d s' cur k
      | O =>
          if starts_with d s
          then rev cur :: split_from d s' [] (List.length d - 1)
          else split_from d s' (c :: cur) 0
      end
  end.

Definition split (s d : list ascii) : list (list ascii) := split_from d s [] 0.

(** ** Errors, promises and responses *)

Inductive Error : Type :=
| CastError (kind value path model : string)
| MongoError (text : string).

(** [error.message] *)
Definition message (e : Error) : string :=
  match e with
  | CastError kind value path model =>
      "Cast to " ++ kind ++ " failed for value " ++ dquote ++ value ++ dquote
      ++ " (type number) at path " ++ dquote ++ path ++ dquote
      ++ " for model " ++ dquote ++ model ++ dquote
  | MongoError text => text
  end.

(** A settled promise. *)
Inductive settled (A : Type) : Type :=
| Resolved (a : A)
| Rejected (e : Error).

Arguments Resolved {A} a.
Arguments Rejected {A} e.

(** What an awaited model call gives back: the settled promise and the
    number of operations the model layer handed on towards the store for
    it.  An operation counts as soon as it is handed on; whether a command
    reached the server before a failure is not recorded. *)
Record reply (A : Type) : Type := {
  outcome : settled A;
  operations : nat
}.

(** ** Query operators on one field *)

(** [{ $gte: r }] against a numeric field.  A missing or null field never
    matches a number; NaN matches only NaN. *)
Definition op_gte (r : num) (f : field num) : bool :=
  match f with
  | Val x =>
      if isNaN x || isNaN r then isNaN x && isNaN r else Num.leb r x
  | _ => false
  end.

(** [{ $exists: true }] *)
Definition op_exists {A} (f : field A) : bool :=
  match f with Absent => false | _ => true end.

(** [{ $ne: null }]: a missing field counts as null. *)
Definition op_ne_null {A} (f : field A) : bool :=
  match f with Val _ => true | _ => false end.

(** [{ $regex: ... }] by the matcher of the compiled pattern: only a string
    can match. *)
Definition op_regex_match (accepts : list ascii -> bool) (f : field string)
  : bool :=
  match f with
  | Val s => accepts (chars s)
  | _ => false
  end.

(** [{ $regex: p }] for a pattern of the fragment. *)
Definition op_regex (p : pattern) (f : field string) : bool :=
  op_regex_match (Regex.test p) f.

(** ** Aggregation expressions *)

(** [$split] of a field by a delimiter; null when the field has no value. *)
Definition expr_split (f : field string) (d : string) : field (list string) :=
  match f with
  | Val s => Val (map string_of_list_ascii (split (chars s) (chars d)))
  | _ => Null
  end.

(** [$arrayElemAt]: no result beyond the end of the array. *)
Definition expr_arrayElemAt {A} (f : field (list A)) (i : nat) : field A :=
  match f with
  | Val l => match nth_error l i with Some a => Val a | None => Absent end
  | _ => Null
  end.

(** [$toInt]: null for a missing or null operand, an error for a string that
    is not an integer.  The error text is the server's; it goes on with the
    reason after a colon, which is left out here. *)
Definition expr_toInt (f : field string) : settled (field Z) :=
  match f with
  | Val s =>
      match toInt_string (chars s) with
      | Some z => Resolved (Val z)
      | None =>
          Rejected (MongoError ("Failed to parse number '" ++ s
                                ++ "' in $convert with no onError value"))
      end
  | _ => Resolved Null
  end.

(** [$add] of a field and a constant; null when the field has no value. *)
Definition expr_add (f : field Z) (k : Z) : field Z :=
  match f with
  | Val z => Val (z + k)%Z
  | _ => Null
  end.

(** ** Pipeline stages *)

(** The distinct keys of a list, in order of first occurrence. *)
Fixpoint distinct {A} (eqb : A -> A -> bool) (l : list A) : list A :=
  match l with
  | [] => []
  | k :: l' => k :: filter (fun k' => negb (eqb k' k)) (distinct eqb l')
  end.

Section Stages.

Variables D K : Type.

(** [$match] *)
Definition match_stage (p : D -> bool) (docs : list D) : list D :=
  filter p docs.

(** [$addFields] with an expression that can fail: the first failure
    rejects the whole aggregation. *)
Fixpoint addFields_stage (E : Type) (e : D -> settled E) (docs : list D)
  : settled (list (D * E)) :=
  match docs with
  | [] => Resolved []
  | d :: docs' =>
      match e d with
      | Rejected err => Rejected err
      | Resolved v =>
          match addFields_stage e docs' with
          | Rejected err => Rejected err
          | Resolved rest => Resolved ((d, v) :: rest)
          end
      end
  end.

Definition group_key (f : field K) : field K :=
  match f with Absent => Null | other => other end.

(** The keys that $group finds, each once. *)
Definition group_keys (eqb : K -> K -> bool) (key : D -> field K)
           (docs : list D) : list (field K) :=
  distinct (key_eqb eqb) (map (fun d => group_key (key d)) docs).

(** [$group]: one group per distinct key, with the documents of that key
    in input order. *)
Definition group_stage (eqb : K -> K -> bool) (key : D -> field K)
           (docs : list D) : list (field K * list D) :=
  map (fun k => (k, filter (fun d => key_eqb eqb (key d) k) docs))
      (group_keys eqb key docs).

Fixpoint insert_sorted (leb : D -> D -> bool) (x : D) (l : list D) : list D :=
  match l with
  | [] => [x]
  | y :: l' => if leb x y then x :: l else y :: insert_sorted leb x l'
  end.

(** [$sort] and [Query.sort]: documents with equal keys stay in input
    order (the store leaves the order of ties open). *)
Definition sort_stage (leb : D -> D -> bool) (docs : list D) : list D :=
  fold_right (insert_sorted leb) [] docs.

Definition ascending (leb : K -> K -> bool) (key : D -> K) : D -> D -> bool :=
  fun a b => leb (key a) (key b).

Definition descending (leb : K -> K -> bool) (key : D -> K) : D -> D -> bool :=
  fun a b => leb (key b) (key a).

(** What a limit of [n] leaves of the sorted documents. *)
Definition limit_stage (n : nat) (docs : list D) : list D := firstn n docs.

End Stages.

(** ** Accumulators *)

(** The numbers among the values of a field; $avg ignores everything else. *)
Definition numeric_values (l : list (field num)) : list num :=
  flat_map (fun f => match f with Val x => [x] | _ => [] end) l.

(** [{ $avg: <field> }]: null when no document of the group has a number. *)
Definition acc_avg (l : list (field num)) : field num :=
  match numeric_values l with
  | [] => Null
  | xs => Val (Num.div_count (Num.sum xs) (List.length xs))
  end.

(** [{ $sum: 1 }] *)
Definition acc_sum_1 {D} (l : list D) : nat := List.length l.

(** ** The Movie model (models/movie.js) and the store behind it *)

Module Movie.

(** A stored document, with the fields of the schema. *)
Record t : Type := {
  _id : N;
  Title : field string;
  Genres : field string;
  ReleaseDate : field string;
  ReleaseCountry : field string;
  ReviewRating : field num;
  MovieRunTime : field string;
  Plot : field string;
  Cast : field string;
  Language : field string;
  FilmingLocations : field string
}.

(** The collection as a request finds it: reachable, with its documents in
    store-native order, or failing every request with an error text. *)
Inductive Store : Type :=
| Up (docs : list t)
| Down (reason : string).

(** The filters the controller passes to [find]. *)
Inductive conditions : Type :=
| every_document                  (* {} *)
| ReviewRating_gte (rating : num) (* { 'Review Rating': { $gte: rating } } *).

(** A query under construction: [find(...)], then [sort] and [limit]. *)
Record Query : Type := {
  filter_of : conditions;
  sort_of : option (t -> t -> bool);
  limit_of : option nat
}.

Definition find (c : conditions) : Query :=
  {| filter_of := c; sort_of := None; limit_of := None |}.

Definition sort (leb : t -> t -> bool) (q : Query) : Query :=
  {| filter_of := filter_of q; sort_of := Some leb; limit_of := limit_of q |}.

Definition limit (n : nat) (q : Query) : Query :=
  {| filter_of := filter_of q; sort_of := sort_of q; limit_of := Some n |}.

(** The model layer's cast of a query value for a path of type Number: it
    asserts that the value is not NaN, and a failed cast is a CastError
    naming the value, the path and the model. *)
Definition castNumber (path : string) (v : num) : settled num :=
  if isNaN v
  then Rejected (CastError "Number" "NaN" path "Movie")
  else Resolved v.

(** [find] casts its filter against the schema when the query is
    executed, before anything is sent to the store. *)
Definition cast (c : conditions) : settled (t -> bool) :=
  match c with
  | every_document => Resolved (fun _ => true)
  | ReviewRating_gte rating =>
      match castNumber "Review Rating" rating with
      | Resolved r => Resolved (fun d => op_gte r (ReviewRating d))
      | Rejected e => Rejected e
      end
  end.

(** One operation handed on towards the store. *)
Definition send (R : Type) (db : Store) (run : list t -> settled R) : reply R :=
  match db with
  | Up docs => {| outcome := run docs; operations := 1 |}
  | Down reason =>
      {| outcome := Rejected (MongoError reason); operations := 1 |}
  end.

(** Awaiting a query: cast, then filter, sort and limit in the store. *)
Definition exec (q : Query) (db : Store) : reply (list t) :=
  match cast (filter_of q) with
  | Rejected e => {| outcome := Rejected e; operations := 0 |}
  | Resolved p =>
      send db (fun docs =>
        let found := filter p docs in
        let sorted :=
          match sort_of q with
          | Some leb => sort_stage leb found
          | None => found
          end in
        Resolved
          match limit_of q with
          | Some n => limit_stage n sorted
          | None => sorted
          end)
  end.

(** Awaiting an aggregation; the pipeline is not cast. *)
Definition aggregate (R : Type) (pipeline : list t -> settled R) (db : Store)
  : reply R :=
  send db pipeline.

End Movie.

(** ** Derived documents *)

Module YearCount.
Record t : Type := { _id : field Z; count : nat }.
End YearCount.

Module CountrySummary.
Record t : Type := {
  _id : field string;
  avgRating : field num;
  movieCount : nat
}.
End CountrySummary.

(** ** Requests and responses *)

Record Request : Type := {
  params_rating : string;        (* req.params.rating *)
  query_country : option string  (* req.query.country *)
}.

Inductive Json : Type :=
| JMovies (movies : list Movie.t)
| JYearCounts (moviesPerYear : list YearCount.t)
| JCountries (topCountries : list CountrySummary.t)
| JMessage (text : string).

Record Response : Type := {
  status : nat;
  body : Json
}.

(** [res.json(x)] answers 200; [res.status(n).json(x)] answers [n]. *)
Definition res_json (x : Json) : Response := {| status := 200; body := x |}.

Definition res_status_json (n : nat) (x : Json) : Response :=
  {| status := n; body := x |}.

(** What a handler did: its response and the operations it had the model
    layer hand on towards the store. *)
Record Served : Type := {
  response : Response;
  store_requests : nat
}.

(** The catch block shared by the handlers. *)
Definition catch (error : Error) : Response :=
  res_status_json 500 (JMessage (message error)).

(** A string is truthy unless it is missing or empty. *)
Definition truthy (s : option string) : bool :=
  match s with
  | Some EmptyString => false
  | Some _ => true
  | None => false
  end.

(** ** The controller (controllers/movieController.js) *)

Definition and_then {A B} (x : settled A) (f : A -> settled B) : settled B :=
  match x with
  | Resolved a => f a
  | Rejected e => Rejected e
  end.

(** The try/catch around an awaited model call. *)
Definition try_await {A} (r : reply A) (send : A -> Response) : Served :=
  {| response :=
       match outcome r with
       | Resolved a => send a
       | Rejected error => catch error
       end;
     store_requests := operations r |}.

Definition getAllMovies (req : Request) (db : Movie.Store) : Served :=
  try_await (Movie.exec (Movie.find Movie.every_document) db)
            (fun movies => res_json (JMovies movies)).

Definition getMoviesWithRatingAboveSpecified (req : Request) (db : Movie.Store)
  : Served :=
  let rating := parseFloat (params_rating req) in
  try_await (Movie.exec (Movie.find (Movie.ReviewRating_gte rating)) db)
            (fun movies => res_json (JMovies movies)).

(** [{ 'Review Rating': -1 }] *)
Definition by_rating_desc : Movie.t -> Movie.t -> bool :=
  descending (field_leb Num.leb) Movie.ReviewRating.

Definition getMoviesWithBestRating (req : Request) (db : Movie.Store) : Served :=
  try_await
    (Movie.exec
       (Movie.limit 10
          (Movie.sort by_rating_desc (Movie.find Movie.every_document)))
       db)
    (fun movies => res_json (JMovies movies)).

(** [/^\d{1,2}-[A-Za-z]{3}-\d{2}$/] *)
Definition release_date_regex : pattern :=
  {| anchored_start := true;
     anchored_end := true;
     expression :=
       Cat (Cat (Chr is_digit) (Opt (Chr is_digit)))
           (Cat (Chr (Ascii.eqb "-"))
                (Cat (Rep 3 (Chr is_alpha))
                     (Cat (Chr (Ascii.eqb "-"))
                          (Rep 2 (Chr is_digit))))) |}.

(** The pipeline of [getMoviesPerYear], stage by stage. *)
Definition moviesPerYear_pipeline (docs : list Movie.t)
  : settled (list YearCount.t) :=
  (* 1. $match on 'Release Date' *)
  let dated :=
    match_stage (fun d => op_regex release_date_regex (Movie.ReleaseDate d))
                docs in
  (* 2. $addFields yearNum *)
  and_then
    (addFields_stage
       (fun d => expr_toInt
                   (expr_arrayElemAt (expr_split (Movie.ReleaseDate d) "-") 2))
       dated)
    (fun with_yearNum =>
       (* 3. $addFields ReleaseYear *)
       let with_ReleaseYear :=
         map (fun dy => (dy, expr_add (snd dy) 2000)) with_yearNum in
       (* 4. $group *)
       let groups :=
         map (fun g => {| YearCount._id := fst g;
                          YearCount.count := acc_sum_1 (snd g) |})
             (group_stage Z.eqb snd with_ReleaseYear) in
       (* 5. $sort *)
       Resolved
         (sort_stage (ascending (field_leb Z.leb) YearCount._id) groups)).

Definition getMoviesPerYear (req : Request) (db : Movie.Store) : Served :=
  try_await (Movie.aggregate moviesPerYear_pipeline db)
            (fun moviesPerYear => res_json (JYearCounts moviesPerYear)).

(** A stage of the country pipeline, as the store runs it. *)
Definition stage : Type :=
  list CountrySummary.t -> settled (list CountrySummary.t).

(** [{ $match: { _id: { $regex: countryQuery, $options: 'i' } } }]: the
    store compiles the text as a caseless pattern and keeps the groups
    whose [_id] the pattern matches; a text that is no pattern fails the
    aggregation with the engine's error. *)
Definition country_regex_stage (pcre : Engine) (text : string) : stage :=
  fun groups =>
    match Regex.compile_pattern pcre true text with
    | Valid accepts =>
        Resolved
          (match_stage
             (fun g => op_regex_match accepts (CountrySummary._id g))
             groups)
    | Invalid error => Rejected (MongoError error)
    end.

(** The stages [...(countryQuery ? [{ $match: ... }] : [])]. *)
Definition countryQuery_stages (pcre : Engine) (countryQuery : option string)
  : list stage :=
  match countryQuery with
  | Some text =>
      if truthy countryQuery then [country_regex_stage pcre text] else []
  | None => []
  end.

(** The pipeline of [getTopCountriesByRating]. *)
Definition topCountries_pipeline (pcre : Engine)
           (countryQuery : option string) (docs : list Movie.t)
  : settled (list CountrySummary.t) :=
  (* rating and country present and not null *)
  let qualifying :=
    match_stage
      (fun d => op_exists (Movie.ReviewRating d)
                && op_ne_null (Movie.ReviewRating d)
                && op_exists (Movie.ReleaseCountry d)
                && op_ne_null (Movie.ReleaseCountry d))
      docs in
  (* one group per country *)
  let groups :=
    map (fun g =>
           {| CountrySummary._id := fst g;
              CountrySummary.avgRating :=
                acc_avg (map Movie.ReviewRating (snd g));
              CountrySummary.movieCount := acc_sum_1 (snd g) |})
        (group_stage String.eqb Movie.ReleaseCountry qualifying) in
  (* at least 10 movies *)
  let large :=
    match_stage (fun g => 10 <=? CountrySummary.movieCount g) groups in
  (* the search stage, when there is one *)
  and_then
    (fold_left (fun acc (st : stage) => and_then acc st)
               (countryQuery_stages pcre countryQuery) (Resolved large))
    (fun searched =>
       Resolved
         (sort_stage
            (descending (field_leb Num.leb) CountrySummary.avgRating)
            searched)).

Definition not_found_message (countryQuery : option string) : string :=
  "Country " ++ dquote
  ++ match countryQuery with Some text => text | None => "undefined" end
  ++ dquote ++ " not found or has fewer than 10 movies.".

Definition getTopCountriesByRating (pcre : Engine) (req : Request)
           (db : Movie.Store) : Served :=
  let countryQuery := query_country req in
  try_await
    (Movie.aggregate (topCountries_pipeline pcre countryQuery) db)
    (fun topCountries =>
       if truthy countryQuery && (List.length topCountries =? 0)
       then res_status_json 404 (JMessage (not_found_message countryQuery))
       else res_json (JCountries topCountries)).

(** ** The router (routes/movieRoutes.js), mounted on /api/movies *)

Inductive Route : Type :=
| root              (* GET /                *)
| rating            (* GET /rating/:rating  *)
| top_rated         (* GET /top-rated       *)
| movies_per_year   (* GET /movies-per-year *)
| top_countries     (* GET /top-countries   *).

Definition router (pcre : Engine) (r : Route) (req : Request)
           (db : Movie.Store) : Served :=
  match r with
  | root => getAllMovies req db
  | rating => getMoviesWithRatingAboveSpecified req db
  | top_rated => getMoviesWithBestRating req db
  | movies_per_year => getMoviesPerYear req db
  | top_countries => getTopCountriesByRating pcre req db
  end.

(** ** The words of the specification

    Definitions that follow the specification's wording, to be compared with
    what the handlers compute. *)

Module Spec.

(** ListAll: every record, in store-native order. *)
Definition ListAll (docs : list Movie.t) : list Movie.t := docs.

(** "ReviewRating present and >= r", with the comparison of numbers. *)
Definition rating_at_least (r : num) (d : Movie.t) : bool :=
  match Movie.ReviewRating d with
  | Val x => Num.geb x r
  | _ => false
  end.

(** "ReviewRating present" *)
Definition rated (d : Movie.t) : bool := is_val (Movie.ReviewRating d).

(** "ReviewRating absent or null" *)
Definition unrated (d : Movie.t) : bool := negb (is_val (Movie.ReviewRating d)).

(** A qualifying record has both ReviewRating and ReleaseCountry present
    and non-null. *)
Definition qualifying (d : Movie.t) : bool :=
  is_val (Movie.ReviewRating d) && is_val (Movie.ReleaseCountry d).

(** The qualifying records of one country. *)
Definition qualifying_of (country : string) (docs : list Movie.t)
  : list Movie.t :=
  filter (fun d => qualifying d
                   && match Movie.ReleaseCountry d with
                      | Val c => String.eqb c country
                      | _ => false
                      end)
         docs.

(** The ratings of a list of records that have one. *)
Definition ratings (docs : list Movie.t) : list num :=
  numeric_values (map Movie.ReviewRating docs).

(** Mean of a non-empty list of rationals. *)
Definition Qmean (qs : list Q) : Q :=
  (fold_right Qplus 0 qs / inject_Z (Z.of_nat (List.length qs)))%Q.

(** The date pattern in words: 1-2 digits, '-', 3 letters, '-',
    2 digits, and nothing else. *)
Definition date_shape (s : list ascii) : bool :=
  match s with
  | [d1; h1; m1; m2; m3; h2; y1; y2] =>
      is_digit d1 && Ascii.eqb h1 "-"
      && is_alpha m1 && is_alpha m2 && is_alpha m3 && Ascii.eqb h2 "-"
      && is_digit y1 && is_digit y2
  | [d1; d2; h1; m1; m2; m3; h2; y1; y2] =>
      is_digit d1 && is_digit d2 && Ascii.eqb h1 "-"
      && is_alpha m1 && is_alpha m2 && is_alpha m3 && Ascii.eqb h2 "-"
      && is_digit y1 && is_digit y2
  | _ => false
  end.

(** A record whose ReleaseDate matches the pattern. *)
Definition dated (d : Movie.t) : bool :=
  match Movie.ReleaseDate d with
  | Val s => date_shape (chars s)
  | _ => false
  end.

(** A text of the date shape with one line feed after it: not the shape,
    yet the [$] of the source's pattern lets it through. *)
Definition date_shape_then_line_feed (s : list ascii) : bool :=
  date_shape (removelast s) && is_line_feed (last s zero).

Definition dated_then_line_feed (d : Movie.t) : bool :=
  match Movie.ReleaseDate d with
  | Val s => date_shape_then_line_feed (chars s)
  | _ => false
  end.

(** 2000 plus the integer value of the trailing 2-digit component. *)
Definition year_of_date (s : list ascii) : Z :=
  (2000 + digits_value (skipn (List.length s - 2) s))%Z.

Definition year_of (d : Movie.t) : Z :=
  match Movie.ReleaseDate d with
  | Val s => year_of_date (chars s)
  | _ => 0%Z
  end.

(** The stored records that match the pattern and fall in year [y]. *)
Definition dated_in (y : Z) (docs : list Movie.t) : list Movie.t :=
  filter (fun d => dated d && Z.eqb (year_of d) y) docs.

(** The count a result lists for year [y]; 0 when the year is not
    listed. *)
Definition count_for (y : Z) (result : list YearCount.t) : nat :=
  list_sum
    (map YearCount.count
         (filter (fun g => key_eqb Z.eqb (YearCount._id g) (Val y)) result)).

(** The year of [a] is strictly below the year of [b]. *)
Definition year_before (a b : YearCount.t) : Prop :=
  match YearCount._id a, YearCount._id b with
  | Val x, Val y => (x < y)%Z
  | _, _ => False
  end.

(** Case-insensitive literal substring. *)
Fixpoint contains (needle hay : list ascii) : bool :=
  starts_with needle hay
  || match hay with
     | [] => false
     | _ :: hay' => contains needle hay'
     end.

Definition contains_ignoring_case (country filter : string) : bool :=
  contains (map to_lower (chars filter)) (map to_lower (chars country)).

(** Texts without pattern metacharacters, in ASCII. *)
Definition plain_text (s : string) : bool :=
  forallb (fun c => negb (is_meta c) && is_ascii c
                    && negb (Ascii.eqb c zero))
          (chars s).

(** [a] is ranked before [b] in [l]. *)
Definition ranked_before {A} (l : list A) (a b : A) : Prop :=
  exists l1 l2 l3, l = l1 ++ a :: l2 ++ b :: l3.

End Spec.

(** ** The language of a regular expression *)

Inductive lang : regex -> list ascii -> Prop :=
| lang_eps : lang Eps []
| lang_chr p c : p c = true -> lang (Chr p) [c]
| lang_cat r1 r2 s1 s2 :
    lang r1 s1 -> lang r2 s2 -> lang (Cat r1 r2) (s1 ++ s2)
| lang_alt_l r1 r2 s : lang r1 s -> lang (Alt r1 r2) s
| lang_alt_r r1 r2 s : lang r2 s -> lang (Alt r1 r2) s
| lang_star_nil r : lang (Star r) []
| lang_star_more r s1 s2 :
    lang r s1 -> lang (Star r) s2 -> lang (Star r) (s1 ++ s2).

(** ** Sample stores *)

Definition movie (i : N) (date country : field string) (r : field num)
  : Movie.t :=
  {| Movie._id := i; Movie.Title := Absent; Movie.Genres := Absent;
     Movie.ReleaseDate := date; Movie.ReleaseCountry := country;
     Movie.ReviewRating := r; Movie.MovieRunTime := Absent;
     Movie.Plot := Absent; Movie.Cast := Absent; Movie.Language := Absent;
     Movie.FilmingLocations := Absent |}.

Definition request (rating : string) (country : option string) : Request :=
  {| params_rating := rating; query_country := country |}.

(** 12 records for Norway whose ratings average 7.5 and 9 for Sweden
    averaging 9.0. *)
Definition norway_sweden : list Movie.t :=
  map (fun i => movie (N.of_nat i) Absent (Val "Norway")
                      (Val (Fin (if Nat.even i then 7 # 1 else 8 # 1))))
      (seq 1 12)
  ++ map (fun i => movie (N.of_nat i) Absent (Val "Sweden")
                         (Val (Fin (9 # 1))))
         (seq 13 9).

(** 10 rated records for the USA. *)
Definition usa_10 : list Movie.t :=
  map (fun i => movie (N.of_nat i) (Val "5-Jul-98") (Val "USA")
                      (Val (Fin (Z.of_nat i # 1))))
      (seq 1 10).

(** One record whose ReleaseDate is "5-Jul-98" followed by a line feed. *)
Definition dated_with_line_feed : list Movie.t :=
  [movie 1 (Val ("5-Jul-98" ++ line_feed)%string) Absent Absent].

(** An engine for the closed examples: they all use pattern texts of the
    fragment, for which the engine beyond the fragment is not consulted. *)
Definition unconsulted : Engine :=
  fun _ _ => Invalid "pattern text outside the fragment".

(** 3 rated records and 9 without a rating. *)
Definition mostly_unrated : list Movie.t :=
  map (fun i => movie (N.of_nat i) Absent Absent
                      (if i <=? 3 then Val (Fin (Z.of_nat i # 1))
                       else if Nat.even i then Null else Absent))
      (seq 1 12).

(** ** Intermediate results, named for the proofs *)

(** The year groups before sorting: one per derived year of the records of
    the date shape. *)
Definition year_groups (docs : list Movie.t) : list YearCount.t :=
  map (fun g => {| YearCount._id := fst g;
                   YearCount.count := List.length (snd g) |})
      (group_stage Z.eqb (fun d => Val (Spec.year_of d))
                   (filter Spec.dated docs)).

(** The country groups of the qualifying records, before the size filter. *)
Definition country_groups (docs : list Movie.t) : list CountrySummary.t :=
  map (fun g =>
         {| CountrySummary._id := fst g;
            CountrySummary.avgRating :=
              acc_avg (map Movie.ReviewRating (snd g));
            CountrySummary.movieCount := List.length (snd g) |})
      (group_stage String.eqb Movie.ReleaseCountry
                   (filter Spec.qualifying docs)).

(** The country groups with at least 10 records. *)
Definition large_groups (docs : list Movie.t) : list CountrySummary.t :=
  filter (fun g => 10 <=? CountrySummary.movieCount g) (country_groups docs).

Definition by_avgRating_desc : CountrySummary.t -> CountrySummary.t -> bool :=
  descending (field_leb Num.leb) CountrySummary.avgRating.

(** A piece of text without the delimiter "-". *)
Definition no_dash (seg : list ascii) : bool :=
  forallb (fun c => negb (Ascii.eqb "-" c)) seg.

(** The expression a text of ordinary characters compiles to. *)
Fixpoint literal_regex (caseless : bool) (l : list ascii) : regex :=
  match l with
  | [] => Eps
  | c :: l' => Cat (Chr (literal caseless c)) (literal_regex caseless l')
  end.

(** Text that cannot continue a run of digits as a decimal literal: the
    end of the text, or a character other than a digit, a point or an
    exponent mark. *)
Definition ends_number (rest : list ascii) : bool :=
  match rest with
  | [] => true
  | c :: _ =>
      negb (is_digit c || Ascii.eqb c "." || Ascii.eqb c "e"
            || Ascii.eqb c "E")
  end.

(** The year a group of the per-year result stands for lies in
    [lo, hi]. *)
Definition year_within (lo hi : Z) (g : YearCount.t) : Prop :=
  exists y, YearCount._id g = Val y /\ (lo <= y <= hi)%Z.

(** A group whose country name contains [text], ignoring case. *)
Definition kept_by (text : string) (g : CountrySummary.t) : bool :=
  match CountrySummary._id g with
  | Val country => Spec.contains_ignoring_case country text
  | _ => false
  end.

(** The answer of TopCountriesByRating to a non-empty filter that left
    the groups [kept]. *)
Definition searched_answer (text : string) (kept : list CountrySummary.t)
  : Served :=
  {| response :=
       match kept with
       | [] => res_status_json 404 (JMessage (not_found_message (Some text)))
       | _ => res_json (JCountries kept)
       end;
     store_requests := 1 |}.

(** * Properties *)

(** ** Orders *)

Lemma Num_leb_total (x y : num) : Num.leb x y = true \/ Num.leb y x = true.
Proof.
  destruct x, y; simpl; auto.
  rewrite !Qle_bool_iff.
  destruct (Qlt_le_dec q q0) as [H | H]; [left; apply Qlt_le_weak, H | right; exact H].
Qed.

Lemma Num_leb_trans (x y z : num) :
  Num.leb x y = true -> Num.leb y z = true -> Num.leb x z = true.
Proof.
  destruct x, y, z; simpl; try discriminate; auto.
  rewrite !Qle_bool_iff. apply Qle_trans.
Qed.

Section FieldOrder.

Variable A : Type.
Variable leb : A -> A -> bool.
Hypothesis leb_total : forall x y, leb x y = true \/ leb y x = true.
Hypothesis leb_trans :
  forall x y z, leb x y = true -> leb y z = true -> leb x z = true.

Lemma field_leb_total (x y : field A) :
  field_leb leb x y = true \/ field_leb leb y x = true.
Proof. destruct x, y; simpl; auto. Qed.

Lemma field_leb_trans (x y z : field A) :
  field_leb leb x y = true -> field_leb leb y z = true ->
  field_leb leb x z = true.
Proof. destruct x, y, z; simpl; try discriminate; eauto. Qed.

End FieldOrder.

Lemma Z_leb_total (x y : Z) : Z.leb x y = true \/ Z.leb y x = true.
Proof. rewrite !Z.leb_le. lia. Qed.

Lemma Z_leb_trans (x y z : Z) :
  Z.leb x y = true -> Z.leb y z = true -> Z.leb x z = true.
Proof. rewrite !Z.leb_le. lia. Qed.

(** ** Sorting *)

Section Sorting.

Variable D : Type.
Variable leb : D -> D -> bool.
Hypothesis leb_total : forall x y, leb x y = true \/ leb y x = true.
Hypothesis leb_trans :
  forall x y z, leb x y = true -> leb y z = true -> leb x z = true.

Let le (a b : D) : Prop := leb a b = true.

Lemma insert_sorted_perm (x : D) (l : list D) :
  Permutation (x :: l) (insert_sorted leb x l).
Proof.
  induction l as [| y l IH]; simpl; auto.
  destruct (leb x y); auto.
  rewrite perm_swap. constructor. exact IH.
Qed.

Lemma sort_stage_perm (l : list D) : Permutation l (sort_stage leb l).
Proof.
  induction l as [| x l IH]; simpl; auto.
  rewrite <- insert_sorted_perm. constructor. exact IH.
Qed.

Lemma insert_sorted_sorted (x : D) (l : list D) :
  StronglySorted le l -> StronglySorted le (insert_sorted leb x l).
Proof.
  induction 1 as [| y l Hs IH Hy]; simpl.
  - repeat constructor.
  - destruct (leb x y) eqn:E.
    + constructor; [constructor; assumption |].
      constructor; [exact E |].
      eapply Forall_impl; [| exact Hy].
      intros z Hz. eapply leb_trans; eassumption.
    + constructor; [exact IH |].
      assert (Hyx : le y x) by (destruct (leb_total x y); [congruence | assumption]).
      eapply Permutation_Forall; [apply insert_sorted_perm |].
      constructor; assumption.
Qed.

Lemma sort_stage_sorted (l : list D) : StronglySorted le (sort_stage leb l).
Proof.
  induction l as [| x l IH]; simpl; [constructor |].
  apply insert_sorted_sorted, IH.
Qed.

Lemma sort_stage_In (l : list D) (d : D) : In d (sort_stage leb l) <-> In d l.
Proof.
  split; apply Permutation_in; [symmetry |]; apply sort_stage_perm.
Qed.

Lemma sort_stage_length (l : list D) :
  List.length (sort_stage leb l) = List.length l.
Proof. symmetry. apply Permutation_length, sort_stage_perm. Qed.

Lemma sorted_ranked (l l1 l2 l3 : list D) (a b : D) :
  StronglySorted le l -> l = l1 ++ a :: l2 ++ b :: l3 -> le a b.
Proof.
  intros Hs ->. induction l1 as [| x l1 IH]; simpl in Hs.
  - apply StronglySorted_inv in Hs. destruct Hs as [_ Hall].
    rewrite Forall_forall in Hall. apply Hall.
    apply in_or_app. right. left. reflexivity.
  - apply StronglySorted_inv in Hs. apply IH, Hs.
Qed.

Lemma sorted_firstn (n : nat) (l : list D) :
  StronglySorted le l -> StronglySorted le (firstn n l).
Proof.
  intros Hs. revert n. induction Hs as [| x l Hs IH Hx]; intros [| n]; simpl;
    try constructor.
  - apply IH.
  - rewrite Forall_forall in *. intros y Hy. apply Hx.
    rewrite <- (firstn_skipn n l). apply in_or_app. left. exact Hy.
Qed.

End Sorting.

(** ** Lists *)

Lemma filter_perm {A} (p : A -> bool) (l l' : list A) :
  Permutation l l' -> Permutation (filter p l) (filter p l').
Proof.
  induction 1 as [| x l l' _ IH | x y l | l l' l'' _ IH1 _ IH2]; simpl.
  - constructor.
  - destruct (p x); [constructor |]; exact IH.
  - destruct (p x), (p y); try reflexivity. apply perm_swap.
  - etransitivity; eassumption.
Qed.

Lemma filter_firstn_length {A} (p : A -> bool) (n : nat) (l : list A) :
  List.length (filter p (firstn n l)) <= List.length (filter p l).
Proof.
  rewrite <- (firstn_skipn n l) at 2. rewrite filter_app, length_app. lia.
Qed.

Lemma In_firstn {A} (n : nat) (l : list A) (x : A) :
  In x (firstn n l) -> In x l.
Proof.
  intros H. rewrite <- (firstn_skipn n l). apply in_or_app. left. exact H.
Qed.

(** ** ListAll and ListByMinimumRating *)

Lemma getAllMovies_up (req : Request) (docs : list Movie.t) :
  getAllMovies req (Movie.Up docs)
  = {| response := res_json (JMovies docs); store_requests := 1 |}.
Proof.
  unfold getAllMovies, try_await. simpl. rewrite filter_true. reflexivity.
Qed.

Lemma op_gte_number (r : num) (f : field num) :
  isNaN r = false ->
  op_gte r f = match f with Val x => Num.geb x r | _ => false end.
Proof.
  intros Hr. destruct f as [| | x]; try reflexivity.
  destruct x, r; simpl in *; try discriminate; reflexivity.
Qed.

(** C5.  For every threshold [r] that the rating parameter parses to (a
    number other than NaN), ListByMinimumRating answers with exactly the
    records of ListAll whose ReviewRating is present and at least [r], in
    store order, and none of the records it returns lacks a rating. *)
Theorem ListByMinimumRating_is_rated_subset
        (req : Request) (r : num) (docs : list Movie.t) :
  parseFloat (params_rating req) = r ->
  isNaN r = false ->
  response (getAllMovies req (Movie.Up docs))
  = res_json (JMovies (Spec.ListAll docs))
  /\ response (getMoviesWithRatingAboveSpecified req (Movie.Up docs))
     = res_json (JMovies (filter (Spec.rating_at_least r) (Spec.ListAll docs)))
  /\ (forall d,
         In d (filter (Spec.rating_at_least r) (Spec.ListAll docs)) <->
         In d (Spec.ListAll docs)
         /\ exists x, Movie.ReviewRating d = Val x /\ Num.geb x r = true)
  /\ (forall d,
         In d (filter (Spec.rating_at_least r) (Spec.ListAll docs)) ->
         Spec.unrated d = false).
Proof.
  intros Hparse Hnum. split; [| split; [| split]].
  - rewrite getAllMovies_up. reflexivity.
  - unfold getMoviesWithRatingAboveSpecified, try_await, Movie.exec.
    rewrite Hparse. simpl. unfold Movie.castNumber. rewrite Hnum. simpl.
    do 2 f_equal. unfold Spec.ListAll. apply filter_ext.
    intros d. unfold Spec.rating_at_least. apply op_gte_number, Hnum.
  - intros d. rewrite filter_In. unfold Spec.rating_at_least.
    split; intros [Hin H]; split; try exact Hin.
    + destruct (Movie.ReviewRating d) as [| | x]; try discriminate.
      exists x. split; [reflexivity | exact H].
    + destruct H as [x [-> H]]. exact H.
  - intros d Hd. apply filter_In in Hd. destruct Hd as [_ H].
    unfold Spec.rating_at_least in H. unfold Spec.unrated.
    destruct (Movie.ReviewRating d); try discriminate. reflexivity.
Qed.

Lemma ListByMinimumRating_is_rated_subset_witness :
  parseFloat (params_rating (request "2.5" None)) = Fin (5 # 2)
  /\ isNaN (Fin (5 # 2)) = false
  /\ response (getMoviesWithRatingAboveSpecified (request "2.5" None)
                                                 (Movie.Up mostly_unrated))
     = res_json (JMovies (filter (Spec.rating_at_least (Fin (5 # 2)))
                                 (Spec.ListAll mostly_unrated))).
Proof.
  split; [reflexivity |]. split; [reflexivity |].
  apply (ListByMinimumRating_is_rated_subset
           (request "2.5" None) (r := Fin (5 # 2)) mostly_unrated);
    reflexivity.
Defined.

(** A NaN threshold never reaches the store. *)
Lemma rating_cast_rejected (req : Request) (db : Movie.Store) :
  isNaN (parseFloat (params_rating req)) = true ->
  getMoviesWithRatingAboveSpecified req db
  = {| response :=
         res_status_json 500
           (JMessage (message (CastError "Number" "NaN" "Review Rating"
                                         "Movie")));
       store_requests := 0 |}.
Proof.
  intros H. unfold getMoviesWithRatingAboveSpecified, try_await, Movie.exec.
  simpl. unfold Movie.castNumber. rewrite H. reflexivity.
Qed.

(** The rating parameter "abc" is no number. *)
Lemma parseFloat_abc : parseFloat "abc" = NaN.
Proof. reflexivity. Qed.

(** C6, as stated, fails: with the rating parameter "abc" the operation
    does not answer with an empty list. *)
Lemma unparsable_rating_is_not_an_empty_list :
  isNaN (parseFloat (params_rating (request "abc" None))) = true
  /\ response (getMoviesWithRatingAboveSpecified (request "abc" None)
                                                 (Movie.Up []))
     <> res_json (JMovies [])
  /\ status (response (getMoviesWithRatingAboveSpecified
                         (request "abc" None) (Movie.Up [])))
     = 500.
Proof.
  split; [reflexivity |]. split; [| reflexivity].
  intros H. discriminate H.
Qed.

(** C6, amended.  When the rating parameter does not parse, the threshold
    is NaN; casting the filter refuses NaN before the store is asked, and
    the handler answers 500 with the message of the cast error, whatever
    the store holds. *)
Theorem unparsable_rating_is_rejected (req : Request) (db : Movie.Store) :
  isNaN (parseFloat (params_rating req)) = true ->
  getMoviesWithRatingAboveSpecified req db
  = {| response :=
         res_status_json 500
           (JMessage (message (CastError "Number" "NaN" "Review Rating"
                                         "Movie")));
       store_requests := 0 |}.
Proof. exact (rating_cast_rejected req db). Qed.

Lemma unparsable_rating_is_rejected_witness :
  isNaN (parseFloat (params_rating (request "abc" None))) = true
  /\ getMoviesWithRatingAboveSpecified (request "abc" None)
                                       (Movie.Up usa_10)
     = {| response :=
            res_status_json 500
              (JMessage (message (CastError "Number" "NaN" "Review Rating"
                                            "Movie")));
          store_requests := 0 |}.
Proof.
  split; [reflexivity |].
  apply (unparsable_rating_is_rejected (request "abc" None)
                                       (Movie.Up usa_10)).
  reflexivity.
Defined.

(** ** TopRated *)

Lemma by_rating_desc_total (a b : Movie.t) :
  by_rating_desc a b = true \/ by_rating_desc b a = true.
Proof.
  unfold by_rating_desc, descending.
  destruct (field_leb_total Num.leb Num_leb_total
              (Movie.ReviewRating a) (Movie.ReviewRating b)); auto.
Qed.

Lemma by_rating_desc_trans (a b c : Movie.t) :
  by_rating_desc a b = true -> by_rating_desc b c = true ->
  by_rating_desc a c = true.
Proof.
  unfold by_rating_desc, descending. intros Hab Hbc.
  exact (field_leb_trans Num.leb Num_leb_trans _ _ _ Hbc Hab).
Qed.

Lemma getMoviesWithBestRating_up (req : Request) (docs : list Movie.t) :
  getMoviesWithBestRating req (Movie.Up docs)
  = {| response :=
         res_json (JMovies (firstn 10 (sort_stage by_rating_desc docs)));
       store_requests := 1 |}.
Proof.
  unfold getMoviesWithBestRating, try_await. simpl.
  rewrite filter_true. reflexivity.
Qed.

Lemma top_sorted (docs : list Movie.t) :
  StronglySorted (fun a b => by_rating_desc a b = true)
                 (firstn 10 (sort_stage by_rating_desc docs)).
Proof.
  apply sorted_firstn.
  apply sort_stage_sorted; [apply by_rating_desc_total | apply by_rating_desc_trans].
Qed.

Lemma Num_leb_geb (x y : num) :
  Num.leb y x = true -> isNaN y = false -> Num.geb x y = true.
Proof.
  destruct x, y; simpl; try discriminate; auto.
Qed.

(** C7.  For every store state TopRated answers with at most 10 records,
    and whenever [a] is ranked before [b] in the answer, the rating of [a]
    is at least the rating of [b]: in the store's order on ratings (a
    missing or null rating below every number), and as numbers when both
    are numbers. *)
Theorem TopRated_at_most_10_descending (req : Request) (docs : list Movie.t) :
  exists movies,
    getMoviesWithBestRating req (Movie.Up docs)
    = {| response := res_json (JMovies movies); store_requests := 1 |}
    /\ List.length movies <= 10
    /\ (forall d, In d movies -> In d docs)
    /\ forall a b,
        Spec.ranked_before movies a b ->
        field_leb Num.leb (Movie.ReviewRating b) (Movie.ReviewRating a) = true
        /\ forall x y,
            Movie.ReviewRating a = Val x -> Movie.ReviewRating b = Val y ->
            isNaN y = false -> Num.geb x y = true.
Proof.
  exists (firstn 10 (sort_stage by_rating_desc docs)).
  split; [apply getMoviesWithBestRating_up |].
  split; [apply firstn_le_length |].
  split.
  - intros d Hd. apply In_firstn in Hd.
    exact (proj1 (sort_stage_In by_rating_desc docs d) Hd).
  - intros a b [l1 [l2 [l3 Hl]]].
    assert (H : by_rating_desc a b = true)
      by (eapply sorted_ranked; [apply top_sorted | exact Hl]).
    split; [exact H |].
    intros x y Ha Hb Hy. unfold by_rating_desc, descending in H.
    rewrite Ha, Hb in H. simpl in H. apply Num_leb_geb; assumption.
Qed.

(** C9.  TopRated sorts and truncates the whole collection: when fewer
    than 10 records have a rating and the store holds at least 10
    records, the answer has 10 records, some of them without a rating,
    and every record without a rating comes after all rated ones. *)
Theorem TopRated_includes_unrated (req : Request) (docs : list Movie.t) :
  List.length (filter Spec.rated docs) < 10 ->
  10 <= List.length docs ->
  exists movies sorted,
    getMoviesWithBestRating req (Movie.Up docs)
    = {| response := res_json (JMovies movies); store_requests := 1 |}
    /\ Permutation docs sorted
    /\ movies = firstn 10 sorted
    /\ List.length movies = 10
    /\ (exists d, In d movies /\ Spec.unrated d = true)
    /\ forall a b,
        Spec.ranked_before movies a b ->
        Spec.unrated a = true -> Spec.unrated b = true.
Proof.
  intros Hfew Hmany.
  exists (firstn 10 (sort_stage by_rating_desc docs)),
         (sort_stage by_rating_desc docs).
  split; [apply getMoviesWithBestRating_up |].
  split; [apply sort_stage_perm |].
  split; [reflexivity |].
  assert (Hlen : List.length (firstn 10 (sort_stage by_rating_desc docs)) = 10).
  { apply firstn_length_le. rewrite sort_stage_length. exact Hmany. }
  split; [exact Hlen |].
  split.
  - destruct (forallb Spec.rated (firstn 10 (sort_stage by_rating_desc docs))) eqn:E.
    + exfalso.
      pose proof (filter_firstn_length Spec.rated 10 (sort_stage by_rating_desc docs))
        as Hle.
      rewrite (forallb_filter_id _ _ E), Hlen in Hle.
      rewrite <- (Permutation_length
                    (filter_perm Spec.rated (sort_stage_perm by_rating_desc docs)))
        in Hle.
      lia.
    + assert (Hex : existsb (fun d => negb (Spec.rated d))
                            (firstn 10 (sort_stage by_rating_desc docs)) = true).
      { clear - E. induction (firstn 10 (sort_stage by_rating_desc docs))
          as [| d l IH]; simpl in *; [discriminate |].
        destruct (Spec.rated d); simpl in *; auto. }
      apply existsb_exists in Hex. destruct Hex as [d [Hin Hd]].
      exists d. split; [exact Hin | exact Hd].
  - intros a b [l1 [l2 [l3 Hl]]] Ha.
    assert (H : by_rating_desc a b = true)
      by (eapply sorted_ranked; [apply top_sorted | exact Hl]).
    unfold by_rating_desc, descending, Spec.unrated in *.
    destruct (Movie.ReviewRating a), (Movie.ReviewRating b);
      simpl in *; try reflexivity; discriminate.
Qed.

Lemma TopRated_includes_unrated_witness :
  List.length (filter Spec.rated mostly_unrated) < 10
  /\ 10 <= List.length mostly_unrated
  /\ exists movies sorted,
      getMoviesWithBestRating (request "" None) (Movie.Up mostly_unrated)
      = {| response := res_json (JMovies movies); store_requests := 1 |}
      /\ Permutation mostly_unrated sorted
      /\ movies = firstn 10 sorted
      /\ List.length movies = 10
      /\ (exists d, In d movies /\ Spec.unrated d = true)
      /\ forall a b,
          Spec.ranked_before movies a b ->
          Spec.unrated a = true -> Spec.unrated b = true.
Proof.
  split; [vm_compute; lia |]. split; [vm_compute; lia |].
  apply (TopRated_includes_unrated (request "" None) mostly_unrated);
    vm_compute; lia.
Defined.

(** ** Grouping *)

Section Distinct.

Variable A : Type.
Variable eqb : A -> A -> bool.

Lemma distinct_spec (l : list A) :
  (forall x y, In x l -> In y l -> (eqb x y = true <-> x = y)) ->
  NoDup (distinct eqb l) /\ forall k, In k (distinct eqb l) <-> In k l.
Proof.
  induction l as [| k0 l IH]; intros Heq; simpl.
  - split; [constructor | tauto].
  - destruct IH as [IHnd IHin].
    { intros x y Hx Hy. apply Heq; right; assumption. }
    assert (Hrefl : eqb k0 k0 = true) by (apply Heq; simpl; auto).
    split.
    + constructor; [| apply NoDup_filter, IHnd].
      rewrite filter_In. intros [_ H]. rewrite Hrefl in H. discriminate.
    + intros k. rewrite filter_In, IHin. split.
      * intros [H | [H _]]; auto.
      * intros [H | H]; auto.
        destruct (eqb k k0) eqn:E.
        -- left. symmetry. apply Heq; simpl; auto.
        -- right. split; [exact H | reflexivity].
Qed.

End Distinct.

Section Grouping.

Variables D K : Type.
Variable eqb : K -> K -> bool.
Hypothesis eqb_spec : forall x y, eqb x y = true <-> x = y.
Variable key : D -> field K.

Lemma key_eqb_spec (f k : field K) :
  k <> Absent -> (key_eqb eqb f k = true <-> group_key f = k).
Proof.
  intros Hk. destruct f, k; simpl; try tauto;
    try (split; [discriminate | congruence]); try (split; congruence).
  rewrite eqb_spec. split; congruence.
Qed.

Lemma group_key_not_absent (f : field K) : group_key f <> Absent.
Proof. destruct f; discriminate. Qed.

Local Abbreviation keys_of := (group_keys eqb key).

Lemma group_keys_spec (docs : list D) :
  NoDup (keys_of docs)
  /\ forall k, In k (keys_of docs) <->
               exists d, In d docs /\ group_key (key d) = k.
Proof.
  destruct (distinct_spec (key_eqb eqb)
              (map (fun d => group_key (key d)) docs)) as [Hnd Hin].
  { intros x y Hx Hy. apply in_map_iff in Hx, Hy.
    destruct Hx as [dx [<- _]], Hy as [dy [<- _]].
    rewrite key_eqb_spec by apply group_key_not_absent.
    destruct (key dx); simpl; tauto. }
  split; [exact Hnd |].
  intros k. unfold group_keys. rewrite Hin, in_map_iff.
  split; intros [d [H1 H2]]; exists d; tauto.
Qed.

Lemma group_keys_not_absent (docs : list D) (k : field K) :
  In k (keys_of docs) -> k <> Absent.
Proof.
  intros H. apply group_keys_spec in H. destruct H as [d [_ <-]].
  apply group_key_not_absent.
Qed.

Lemma group_stage_keys (docs : list D) :
  map fst (group_stage eqb key docs) = keys_of docs.
Proof.
  unfold group_stage. rewrite map_map. simpl. apply map_id.
Qed.

Lemma group_stage_In (docs : list D) (g : field K * list D) :
  In g (group_stage eqb key docs) <->
  In (fst g) (keys_of docs)
  /\ snd g = filter (fun d => key_eqb eqb (key d) (fst g)) docs.
Proof.
  unfold group_stage. rewrite in_map_iff. split.
  - intros [k [<- Hk]]. simpl. auto.
  - intros [Hk Hs]. exists (fst g). split; [| exact Hk].
    destruct g as [k ds]. simpl in *. congruence.
Qed.

(** Every group has a member. *)
Lemma group_stage_nonempty (docs : list D) (g : field K * list D) :
  In g (group_stage eqb key docs) -> snd g <> [].
Proof.
  intros Hg. apply group_stage_In in Hg. destruct Hg as [Hk Hs].
  assert (Hna : fst g <> Absent) by (eapply group_keys_not_absent; eassumption).
  apply group_keys_spec in Hk. destruct Hk as [d [Hd Hkd]].
  rewrite Hs. intros Hnil.
  assert (Hin : In d (filter (fun d => key_eqb eqb (key d) (fst g)) docs)).
  { apply filter_In. split; [exact Hd |].
    apply key_eqb_spec; assumption. }
  rewrite Hnil in Hin. exact Hin.
Qed.

(** The sizes of the groups of a duplicate-free list of keys add up to
    the number of documents with one of these keys. *)
Lemma group_sizes (ks : list (field K)) (docs : list D) :
  NoDup ks -> (forall k, In k ks -> k <> Absent) ->
  list_sum (map (fun k => List.length
                            (filter (fun d => key_eqb eqb (key d) k) docs))
                ks)
  = List.length
      (filter (fun d => existsb (key_eqb eqb (key d)) ks) docs).
Proof.
  induction 1 as [| k ks Hk Hnd IH]; intros Hna; simpl.
  - induction docs; simpl; auto.
  - rewrite IH by (intros; apply Hna; right; assumption).
    clear IH. induction docs as [| d docs IHd]; simpl; [reflexivity |].
    destruct (key_eqb eqb (key d) k) eqn:E; simpl.
    + assert (Hno : existsb (key_eqb eqb (key d)) ks = false).
      { destruct (existsb (key_eqb eqb (key d)) ks) eqn:E'; [| reflexivity].
        exfalso. apply existsb_exists in E'. destruct E' as [k' [Hin' Hk']].
        apply key_eqb_spec in E; [| apply Hna; left; reflexivity].
        apply key_eqb_spec in Hk'; [| apply Hna; right; assumption].
        apply Hk. congruence. }
      rewrite Hno. simpl. lia.
    + destruct (existsb (key_eqb eqb (key d)) ks); simpl; lia.
Qed.

(** The sizes of all groups add up to the number of documents. *)
Lemma group_stage_total (docs : list D) :
  list_sum (map (fun g => List.length (snd g)) (group_stage eqb key docs))
  = List.length docs.
Proof.
  unfold group_stage. rewrite map_map. simpl.
  destruct (group_keys_spec docs) as [Hnd Hin].
  rewrite group_sizes;
    [| exact Hnd | intros k Hk; eapply group_keys_not_absent; eassumption].
  f_equal. apply forallb_filter_id, forallb_forall. intros d Hd.
  apply existsb_exists. exists (group_key (key d)). split.
  - apply Hin. exists d. auto.
  - apply key_eqb_spec; [apply group_key_not_absent | reflexivity].
Qed.

(** The groups under one key: a single group holding the documents of
    that key, or none when no document has it. *)
Lemma group_stage_lookup (docs : list D) (k : field K) :
  k <> Absent ->
  list_sum (map (fun g => List.length (snd g))
                (filter (fun g => key_eqb eqb (fst g) k)
                        (group_stage eqb key docs)))
  = List.length (filter (fun d => key_eqb eqb (key d) k) docs).
Proof.
  intros Hk. unfold group_stage. fold (keys_of docs).
  destruct (group_keys_spec docs) as [Hnd Hin].
  assert (Hna : forall k', In k' (keys_of docs) -> k' <> Absent)
    by (intros; eapply group_keys_not_absent; eassumption).
  assert (Hcover : forall d, In d docs -> key_eqb eqb (key d) k = true ->
                             In k (keys_of docs)).
  { intros d Hd E. apply Hin. exists d. split; [exact Hd |].
    apply key_eqb_spec; assumption. }
  clear Hin. induction (keys_of docs) as [| k' ks IH]; simpl.
  - symmetry. apply length_zero_iff_nil.
    destruct (filter (fun d => key_eqb eqb (key d) k) docs) as [| d l] eqn:E;
      [reflexivity |].
    exfalso. assert (Hd : In d (d :: l)) by (left; reflexivity).
    rewrite <- E in Hd. apply filter_In in Hd. destruct Hd as [Hd1 Hd2].
    exact (Hcover d Hd1 Hd2).
  - apply NoDup_cons_iff in Hnd. destruct Hnd as [Hk' Hnd].
    destruct (key_eqb eqb k' k) eqn:E; simpl.
    + apply key_eqb_spec in E; [| exact Hk].
      assert (Hk'k : k' = k).
      { rewrite <- E. destruct k'; simpl; try reflexivity.
        exfalso. apply (Hna Absent); [left |]; reflexivity. }
      subst k'.
      assert (Hrest : filter (fun g : field K * list D =>
                                key_eqb eqb (fst g) k)
                        (map (fun k0 => (k0, filter (fun d =>
                                key_eqb eqb (key d) k0) docs)) ks) = []).
      { clear - Hk' Hna Hk eqb_spec.
        induction ks as [| k1 ks IH]; simpl; [reflexivity |].
        destruct (key_eqb eqb k1 k) eqn:E.
        - exfalso. apply Hk'. left.
          apply key_eqb_spec in E; [| exact Hk].
          rewrite <- E. destruct k1; simpl; try reflexivity.
          exfalso. apply (Hna Absent); [right; left |]; reflexivity.
        - apply IH.
          + intros H. apply Hk'. right. exact H.
          + intros k2 [H | H]; apply Hna; [left | right; right]; assumption. }
      rewrite Hrest. simpl. lia.
    + apply IH.
      * exact Hnd.
      * intros; apply Hna; right; assumption.
      * intros d Hd Ed. destruct (Hcover d Hd Ed) as [H | H]; [| exact H].
        subst k'. exfalso.
        assert (Hself : key_eqb eqb k k = true).
        { apply key_eqb_spec; [exact Hk |]. destruct k; try reflexivity.
          congruence. }
        congruence.
Qed.

End Grouping.

(** ** Regular expressions: the matcher decides the language *)

Lemma lang_chr_inv (p : ascii -> bool) (s : list ascii) :
  lang (Chr p) s -> exists c, s = [c] /\ p c = true.
Proof. intros H. inversion H; subst. eauto. Qed.

Lemma lang_eps_inv (s : list ascii) : lang Eps s -> s = [].
Proof. intros H. inversion H. reflexivity. Qed.

Lemma lang_cat_inv (r1 r2 : regex) (s : list ascii) :
  lang (Cat r1 r2) s -> exists s1 s2, s = s1 ++ s2 /\ lang r1 s1 /\ lang r2 s2.
Proof. intros H. inversion H; subst. eauto. Qed.

Lemma lang_alt_inv (r1 r2 : regex) (s : list ascii) :
  lang (Alt r1 r2) s -> lang r1 s \/ lang r2 s.
Proof. intros H. inversion H; subst; auto. Qed.

Lemma nullable_lang (r : regex) : nullable r = true <-> lang r [].
Proof.
  induction r as [| | p | r1 IH1 r2 IH2 | r1 IH1 r2 IH2 | r IH]; simpl.
  - split; [discriminate | intros H; inversion H].
  - split; [constructor | reflexivity].
  - split; [discriminate | intros H; inversion H].
  - rewrite andb_true_iff, IH1, IH2. split.
    + intros [H1 H2]. change (@nil ascii) with (@nil ascii ++ []).
      constructor; assumption.
    + intros H. apply lang_cat_inv in H. destruct H as [s1 [s2 [E [H1 H2]]]].
      symmetry in E. apply app_eq_nil in E. destruct E; subst. auto.
  - rewrite orb_true_iff, IH1, IH2. split.
    + intros [H | H]; [apply lang_alt_l | apply lang_alt_r]; exact H.
    + intros H. inversion H; subst; auto.
  - split; [constructor | reflexivity].
Qed.

Lemma lang_cat_split (r1 r2 : regex) (s s1 s2 : list ascii) :
  lang r1 s1 -> lang r2 s2 -> s = s1 ++ s2 -> lang (Cat r1 r2) s.
Proof. intros H1 H2 ->. constructor; assumption. Qed.

Lemma lang_star_cons_inv (r : regex) (c : ascii) (s : list ascii) :
  lang (Star r) (c :: s) ->
  exists s1 s2, s = s1 ++ s2 /\ lang r (c :: s1) /\ lang (Star r) s2.
Proof.
  intros H. remember (Star r) as r' eqn:Er. remember (c :: s) as cs eqn:Es.
  revert s Es.
  induction H as [| | | | | | r0 s1 s2 H1 _ H2 IH2]; try discriminate.
  intros s Es. injection Er as ->.
  destruct s1 as [| c1 s1]; simpl in Es.
  - apply IH2; [reflexivity | exact Es].
  - injection Es as -> <-. exists s1, s2. auto.
Qed.

Lemma deriv_lang (c : ascii) (r : regex) (s : list ascii) :
  lang (deriv c r) s <-> lang r (c :: s).
Proof.
  revert s.
  induction r as [| | p | r1 IH1 r2 IH2 | r1 IH1 r2 IH2 | r IH];
    intros s; simpl.
  - split; intros H; inversion H.
  - split; intros H; inversion H.
  - destruct (p c) eqn:E; split; intros H; inversion H; subst.
    + constructor. exact E.
    + constructor.
    + congruence.
  - assert (Hcat : lang (Cat (deriv c r1) r2) s ->
                   lang (Cat r1 r2) (c :: s)).
    { intros H. apply lang_cat_inv in H. destruct H as [s1 [s2 [-> [H1 H2]]]].
      apply IH1 in H1. change (c :: s1 ++ s2) with ((c :: s1) ++ s2).
      constructor; assumption. }
    assert (Hinv : lang (Cat r1 r2) (c :: s) ->
                   lang (Cat (deriv c r1) r2) s
                   \/ (lang r1 [] /\ lang r2 (c :: s))).
    { intros H. apply lang_cat_inv in H. destruct H as [s1 [s2 [E [H1 H2]]]].
      destruct s1 as [| c1 s1]; simpl in E.
      - right. subst. auto.
      - injection E as <- ->. left. constructor; [apply IH1 |]; assumption. }
    destruct (nullable r1) eqn:N.
    + split.
      * intros H. inversion H; subst; [auto |].
        change (c :: s) with ([] ++ c :: s).
        constructor; [apply nullable_lang; exact N | apply IH2; assumption].
      * intros H. destruct (Hinv H) as [H' | [_ H']];
          [apply lang_alt_l | apply lang_alt_r; apply IH2]; exact H'.
    + split; [exact Hcat |].
      intros H. destruct (Hinv H) as [H' | [H' _]]; [exact H' |].
      apply nullable_lang in H'. congruence.
  - split; intros H; inversion H; subst.
    + apply lang_alt_l, IH1. assumption.
    + apply lang_alt_r, IH2. assumption.
    + apply lang_alt_l, IH1. assumption.
    + apply lang_alt_r, IH2. assumption.
  - split.
    + intros H. apply lang_cat_inv in H. destruct H as [s1 [s2 [-> [H1 H2]]]].
      apply IH in H1. change (c :: s1 ++ s2) with ((c :: s1) ++ s2).
      constructor; assumption.
    + intros H. apply lang_star_cons_inv in H.
      destruct H as [s1 [s2 [-> [H1 H2]]]].
      constructor; [apply IH |]; assumption.
Qed.

Theorem matches_lang (r : regex) (s : list ascii) :
  matches r s = true <-> lang r s.
Proof.
  revert r. induction s as [| c s IH]; intros r; simpl.
  - apply nullable_lang.
  - rewrite IH. apply deriv_lang.
Qed.

Lemma lang_anything (s : list ascii) : lang anything s.
Proof.
  unfold anything. induction s as [| c s IH]; [constructor |].
  change (c :: s) with ([c] ++ s). constructor; [constructor |]; auto.
Qed.

(** ** The date pattern *)

Ltac lang_invert :=
  repeat match goal with
         | H : lang (Cat _ _) _ |- _ =>
             apply lang_cat_inv in H; destruct H as (? & ? & ? & ? & ?)
         | H : lang (Chr _) _ |- _ =>
             apply lang_chr_inv in H; destruct H as (? & ? & ?)
         | H : lang Eps _ |- _ => apply lang_eps_inv in H
         | H : lang (Alt _ _) _ |- _ => apply lang_alt_inv in H; destruct H
         | H : lang (Opt _) _ |- _ => unfold Opt in H
         | H : lang (Rep _ _) _ |- _ => simpl in H
         end.

Ltac split_andb :=
  repeat match goal with
         | H : (_ && _) = true |- _ =>
             apply andb_true_iff in H; destruct H
         end.

Ltac lang_char :=
  apply lang_chr; first [assumption | rewrite Ascii.eqb_sym; assumption].

Lemma release_date_whole_shape (s : list ascii) :
  matches (Cat Eps (Cat (expression release_date_regex) Eps)) s
  = Spec.date_shape s.
Proof.
  apply eq_true_iff_eq. rewrite matches_lang. simpl.
  split.
  - intros H. lang_invert; subst; simpl;
      repeat match goal with
             | H : _ = true |- _ => rewrite H; clear H
             | |- context [Ascii.eqb ?c "-"%char] =>
                 rewrite (Ascii.eqb_sym c "-"%char)
             end; reflexivity.
  - intros H.
    destruct s as [| d1 [| c2 [| c3 [| c4 [| c5 [| c6 [| c7 [| c8 [| c9 [| c10 s]]]]]]]]]];
      simpl in H; try discriminate; split_andb.
    + apply lang_cat_split with (s1 := []) (s2 := [d1; c2; c3; c4; c5; c6; c7; c8]);
        [constructor | | reflexivity].
      apply lang_cat_split with (s1 := [d1; c2; c3; c4; c5; c6; c7; c8]) (s2 := []);
        [| constructor | reflexivity].
      apply lang_cat_split with (s1 := [d1]) (s2 := [c2; c3; c4; c5; c6; c7; c8]);
        [| | reflexivity].
      * apply lang_cat_split with (s1 := [d1]) (s2 := []);
          [lang_char | apply lang_alt_r; constructor | reflexivity].
      * apply lang_cat_split with (s1 := [c2]) (s2 := [c3; c4; c5; c6; c7; c8]);
          [lang_char | | reflexivity].
        apply lang_cat_split with (s1 := [c3; c4; c5]) (s2 := [c6; c7; c8]);
          [| | reflexivity].
        -- simpl.
           apply lang_cat_split with (s1 := [c3]) (s2 := [c4; c5]);
             [lang_char | | reflexivity].
           apply lang_cat_split with (s1 := [c4]) (s2 := [c5]);
             [lang_char | | reflexivity].
           apply lang_cat_split with (s1 := [c5]) (s2 := []);
             [lang_char | constructor | reflexivity].
        -- apply lang_cat_split with (s1 := [c6]) (s2 := [c7; c8]);
             [lang_char | | reflexivity].
           simpl.
           apply lang_cat_split with (s1 := [c7]) (s2 := [c8]);
             [lang_char | | reflexivity].
           apply lang_cat_split with (s1 := [c8]) (s2 := []);
             [lang_char | constructor | reflexivity].
    + apply lang_cat_split with (s1 := []) (s2 := [d1; c2; c3; c4; c5; c6; c7; c8; c9]);
        [constructor | | reflexivity].
      apply lang_cat_split with (s1 := [d1; c2; c3; c4; c5; c6; c7; c8; c9]) (s2 := []);
        [| constructor | reflexivity].
      apply lang_cat_split with (s1 := [d1; c2]) (s2 := [c3; c4; c5; c6; c7; c8; c9]);
        [| | reflexivity].
      * apply lang_cat_split with (s1 := [d1]) (s2 := [c2]);
          [lang_char | apply lang_alt_l; lang_char | reflexivity].
      * apply lang_cat_split with (s1 := [c3]) (s2 := [c4; c5; c6; c7; c8; c9]);
          [lang_char | | reflexivity].
        apply lang_cat_split with (s1 := [c4; c5; c6]) (s2 := [c7; c8; c9]);
          [| | reflexivity].
        -- simpl.
           apply lang_cat_split with (s1 := [c4]) (s2 := [c5; c6]);
             [lang_char | | reflexivity].
           apply lang_cat_split with (s1 := [c5]) (s2 := [c6]);
             [lang_char | | reflexivity].
           apply lang_cat_split with (s1 := [c6]) (s2 := []);
             [lang_char | constructor | reflexivity].
        -- apply lang_cat_split with (s1 := [c7]) (s2 := [c8; c9]);
             [lang_char | | reflexivity].
           simpl.
           apply lang_cat_split with (s1 := [c8]) (s2 := [c9]);
             [lang_char | | reflexivity].
           apply lang_cat_split with (s1 := [c9]) (s2 := []);
             [lang_char | constructor | reflexivity].
Qed.

(** The body of the pattern accepts exactly the date shape. *)
Lemma release_date_body_shape (s : list ascii) :
  lang (expression release_date_regex) s <-> Spec.date_shape s = true.
Proof.
  rewrite <- release_date_whole_shape, matches_lang. split.
  - intros H.
    apply lang_cat_split with (s1 := []) (s2 := s); [constructor | | reflexivity].
    apply lang_cat_split with (s1 := s) (s2 := []);
      [exact H | constructor | symmetry; apply app_nil_r].
  - intros H. apply lang_cat_inv in H. destruct H as [s0 [s' [-> [H0 H]]]].
    apply lang_eps_inv in H0. subst s0.
    apply lang_cat_inv in H. destruct H as [s1 [s2 [-> [H1 H2]]]].
    apply lang_eps_inv in H2. subst s2. cbn [app]. rewrite app_nil_r.
    exact H1.
Qed.

(** The anchored pattern accepts the date shape and, through its [$], the
    date shape followed by a line feed. *)
Lemma release_date_regex_test (s : list ascii) :
  Regex.test release_date_regex s
  = Spec.date_shape s || Spec.date_shape_then_line_feed s.
Proof.
  apply eq_true_iff_eq. unfold Regex.test.
  cbn [anchored_start anchored_end release_date_regex].
  fold (expression release_date_regex).
  rewrite matches_lang, orb_true_iff.
  unfold Spec.date_shape_then_line_feed.
  rewrite andb_true_iff, <- !release_date_body_shape. split.
  - intros H. apply lang_cat_inv in H. destruct H as [s0 [s' [-> [H0 H]]]].
    apply lang_eps_inv in H0. subst s0. cbn [app].
    apply lang_cat_inv in H. destruct H as [s1 [tail [-> [H1 Ht]]]].
    apply lang_alt_inv in Ht. destruct Ht as [Ht | Ht].
    + right. apply lang_chr_inv in Ht. destruct Ht as [c [-> Hc]].
      rewrite removelast_last, last_last. split; assumption.
    + left. apply lang_eps_inv in Ht. subst tail. rewrite app_nil_r. exact H1.
  - intros [H | [H Hlf]].
    + apply lang_cat_split with (s1 := []) (s2 := s);
        [constructor | | reflexivity].
      apply lang_cat_split with (s1 := s) (s2 := []);
        [exact H | apply lang_alt_r; constructor | symmetry; apply app_nil_r].
    + destruct s as [| c0 s0].
      { apply release_date_body_shape in H. discriminate H. }
      apply lang_cat_split with (s1 := []) (s2 := c0 :: s0);
        [constructor | | reflexivity].
      apply lang_cat_split
        with (s1 := removelast (c0 :: s0)) (s2 := [last (c0 :: s0) zero]).
      * exact H.
      * apply lang_alt_l. constructor. exact Hlf.
      * apply app_removelast_last. discriminate.
Qed.

(** ** CountByReleaseYear *)

Lemma digit_not_sign (c : ascii) :
  is_digit c = true ->
  Ascii.eqb "-" c = false /\ Ascii.eqb c "-" = false
  /\ Ascii.eqb c "+" = false.
Proof.
  destruct c as [[] [] [] [] [] [] [] []]; vm_compute; intros H;
    try discriminate H; repeat split.
Qed.

Lemma alpha_not_dash (c : ascii) : is_alpha c = true -> Ascii.eqb "-" c = false.
Proof.
  destruct c as [[] [] [] [] [] [] [] []]; vm_compute; intros H;
    try discriminate H; reflexivity.
Qed.

Lemma digit_value_range (c : ascii) :
  is_digit c = true -> (0 <= digit_value c <= 9)%Z.
Proof.
  destruct c as [[] [] [] [] [] [] [] []]; vm_compute; intros H;
    try discriminate H; split; discriminate.
Qed.

Lemma digits_value_two (y1 y2 : ascii) :
  digits_value [y1; y2] = (10 * digit_value y1 + digit_value y2)%Z.
Proof. unfold digits_value. cbn [fold_left]. lia. Qed.

Lemma toInt_two_digits (y1 y2 : ascii) :
  is_digit y1 = true -> is_digit y2 = true ->
  toInt_string [y1; y2] = Some (digits_value [y1; y2]).
Proof.
  intros H1 H2. unfold toInt_string, take_sign.
  destruct (digit_not_sign _ H1) as [_ [-> ->]].
  cbv beta iota zeta. cbn [forallb]. rewrite H1, H2. cbn [andb].
  rewrite Z.mul_1_l, digits_value_two.
  pose proof (digit_value_range _ H1). pose proof (digit_value_range _ H2).
  change (2 ^ 31)%Z with 2147483648%Z.
  rewrite (proj2 (Z.leb_le _ _)) by lia.
  rewrite (proj2 (Z.ltb_lt _ _)) by lia.
  reflexivity.
Qed.

Lemma split_from_last (seg cur : list ascii) :
  no_dash seg = true ->
  split_from (chars "-") seg cur 0 = [rev cur ++ seg].
Proof.
  revert cur. induction seg as [| c seg IH]; intros cur H.
  - simpl. rewrite app_nil_r. reflexivity.
  - unfold no_dash in H. cbn [forallb] in H.
    apply andb_true_iff in H. destruct H as [Hc Hs].
    apply negb_true_iff in Hc.
    cbn [split_from chars list_ascii_of_string starts_with].
    rewrite Hc. cbn [andb]. rewrite IH by exact Hs.
    cbn [rev]. rewrite <- app_assoc. reflexivity.
Qed.

Lemma split_from_piece (seg cur rest : list ascii) :
  no_dash seg = true ->
  split_from (chars "-") (seg ++ "-"%char :: rest) cur 0
  = (rev cur ++ seg) :: split_from (chars "-") rest [] 0.
Proof.
  revert cur. induction seg as [| c seg IH]; intros cur H.
  - cbn [app split_from chars list_ascii_of_string starts_with].
    rewrite Ascii.eqb_refl. cbn [andb List.length Nat.sub].
    rewrite app_nil_r. reflexivity.
  - unfold no_dash in H. cbn [forallb] in H.
    apply andb_true_iff in H. destruct H as [Hc Hs].
    apply negb_true_iff in Hc.
    cbn [app split_from chars list_ascii_of_string starts_with].
    rewrite Hc. cbn [andb]. rewrite IH by exact Hs.
    cbn [rev]. rewrite <- app_assoc. reflexivity.
Qed.

Ltac no_dash_solve :=
  unfold no_dash; cbn [forallb];
  repeat match goal with
         | E : is_digit ?c = true |- context [Ascii.eqb "-" ?c] =>
             rewrite (proj1 (digit_not_sign c E))
         | E : is_alpha ?c = true |- context [Ascii.eqb "-" ?c] =>
             rewrite (alpha_not_dash c E)
         end;
  reflexivity.

(** The year expression on a text of the date shape: the third piece of
    the split is the trailing 2-digit component and converts to its
    value. *)
Lemma yearNum_of_date_shape (l : list ascii) :
  Spec.date_shape l = true ->
  exists yy,
    nth_error (split l (chars "-")) 2 = Some yy
    /\ toInt_string yy = Some (Spec.year_of_date l - 2000)%Z.
Proof.
  intros H.
  destruct l as [| d1 [| c2 [| c3 [| c4 [| c5 [| c6 [| c7 [| c8 [| c9 [| c10 s]]]]]]]]]];
    simpl in H; try discriminate; split_andb;
    repeat match goal with
           | E : Ascii.eqb ?c "-" = true |- _ =>
               apply Ascii.eqb_eq in E; subst c
           end.
  - exists [c7; c8]. split.
    + unfold split.
      change [d1; "-"%char; c3; c4; c5; "-"%char; c7; c8]
        with ([d1] ++ "-"%char :: [c3; c4; c5] ++ "-"%char :: [c7; c8]).
      rewrite split_from_piece by no_dash_solve.
      rewrite split_from_piece by no_dash_solve.
      rewrite split_from_last by no_dash_solve.
      reflexivity.
    + rewrite toInt_two_digits by assumption. f_equal.
      unfold Spec.year_of_date. cbn [List.length Nat.sub skipn]. lia.
  - exists [c8; c9]. split.
    + unfold split.
      change [d1; c2; "-"%char; c4; c5; c6; "-"%char; c8; c9]
        with ([d1; c2] ++ "-"%char :: [c4; c5; c6] ++ "-"%char :: [c8; c9]).
      rewrite split_from_piece by no_dash_solve.
      rewrite split_from_piece by no_dash_solve.
      rewrite split_from_last by no_dash_solve.
      reflexivity.
    + rewrite toInt_two_digits by assumption. f_equal.
      unfold Spec.year_of_date. cbn [List.length Nat.sub skipn]. lia.
Qed.

Lemma op_regex_release_date (d : Movie.t) :
  op_regex release_date_regex (Movie.ReleaseDate d)
  = Spec.dated d || Spec.dated_then_line_feed d.
Proof.
  unfold op_regex, op_regex_match, Spec.dated, Spec.dated_then_line_feed.
  destruct (Movie.ReleaseDate d); try reflexivity.
  apply release_date_regex_test.
Qed.

(** Without a date that a line feed follows, the $match stage keeps the
    records of the date shape and no other. *)
Lemma release_date_stage (docs : list Movie.t) :
  existsb Spec.dated_then_line_feed docs = false ->
  filter (fun d => op_regex release_date_regex (Movie.ReleaseDate d)) docs
  = filter Spec.dated docs.
Proof.
  intros Hnone. apply filter_ext_in. intros d Hd.
  rewrite op_regex_release_date.
  replace (Spec.dated_then_line_feed d) with false; [apply orb_false_r |].
  symmetry. destruct (Spec.dated_then_line_feed d) eqn:E; [| reflexivity].
  rewrite <- Hnone. symmetry. apply existsb_exists. exists d. auto.
Qed.

Lemma yearNum_of_dated (d : Movie.t) :
  Spec.dated d = true ->
  expr_toInt (expr_arrayElemAt (expr_split (Movie.ReleaseDate d) "-") 2)
  = Resolved (Val (Spec.year_of d - 2000)%Z).
Proof.
  unfold Spec.dated, Spec.year_of.
  destruct (Movie.ReleaseDate d) as [| | s]; try discriminate.
  intros H. destruct (yearNum_of_date_shape _ H) as [yy [Hnth Hint]].
  unfold expr_split, expr_arrayElemAt.
  rewrite nth_error_map. fold (chars "-"). rewrite Hnth. simpl.
  unfold chars at 1. rewrite list_ascii_of_string_of_list_ascii, Hint.
  reflexivity.
Qed.

(** The year expression on a date of the shape with a line feed after
    it: the third piece of the split keeps the line feed, and $toInt
    refuses it. *)
Lemma yearNum_of_line_feed (d : Movie.t) :
  Spec.dated_then_line_feed d = true ->
  exists text,
    expr_toInt (expr_arrayElemAt (expr_split (Movie.ReleaseDate d) "-") 2)
    = Rejected (MongoError text).
Proof.
  unfold Spec.dated_then_line_feed, Spec.date_shape_then_line_feed.
  destruct (Movie.ReleaseDate d) as [| | s]; try discriminate.
  intros H. apply andb_true_iff in H. destruct H as [Hshape Hlf].
  unfold expr_split, expr_arrayElemAt. rewrite nth_error_map.
  fold (chars "-").
  assert (Hne : chars s <> []).
  { intros E. rewrite E in Hshape. discriminate Hshape. }
  rewrite (app_removelast_last zero Hne).
  apply Ascii.eqb_eq in Hlf. rewrite Hlf.
  destruct (removelast (chars s))
    as [| d1 [| c2 [| c3 [| c4 [| c5 [| c6 [| c7 [| c8 [| c9 [| c10 l]]]]]]]]]];
    simpl in Hshape; try discriminate; split_andb;
    repeat match goal with
           | E : Ascii.eqb ?c "-" = true |- _ =>
               apply Ascii.eqb_eq in E; subst c
           end.
  - unfold split.
    change ([d1; "-"%char; c3; c4; c5; "-"%char; c7; c8] ++ [ascii_of_nat 10])
      with ([d1] ++ "-"%char :: [c3; c4; c5]
                 ++ "-"%char :: [c7; c8; ascii_of_nat 10]).
    rewrite split_from_piece by no_dash_solve.
    rewrite split_from_piece by no_dash_solve.
    rewrite split_from_last by no_dash_solve.
    cbn [rev app nth_error option_map expr_toInt].
    unfold chars. rewrite list_ascii_of_string_of_list_ascii.
    unfold toInt_string, take_sign.
    match goal with E : is_digit c7 = true |- _ =>
      destruct (digit_not_sign _ E) as [_ [-> ->]]; cbn [forallb]; rewrite E
    end.
    match goal with E : is_digit c8 = true |- _ => rewrite E end.
    cbn. eexists. reflexivity.
  - unfold split.
    change ([d1; c2; "-"%char; c4; c5; c6; "-"%char; c8; c9]
              ++ [ascii_of_nat 10])
      with ([d1; c2] ++ "-"%char :: [c4; c5; c6]
                     ++ "-"%char :: [c8; c9; ascii_of_nat 10]).
    rewrite split_from_piece by no_dash_solve.
    rewrite split_from_piece by no_dash_solve.
    rewrite split_from_last by no_dash_solve.
    cbn [rev app nth_error option_map expr_toInt].
    unfold chars. rewrite list_ascii_of_string_of_list_ascii.
    unfold toInt_string, take_sign.
    match goal with E : is_digit c8 = true |- _ =>
      destruct (digit_not_sign _ E) as [_ [-> ->]]; cbn [forallb]; rewrite E
    end.
    match goal with E : is_digit c9 = true |- _ => rewrite E end.
    cbn. eexists. reflexivity.
Qed.

(** One failing document fails the whole $addFields stage. *)
Lemma addFields_stage_rejects {D E} (e : D -> settled E) (docs : list D)
      (d : D) (err : Error) :
  In d docs -> e d = Rejected err ->
  exists err', addFields_stage e docs = Rejected err'.
Proof.
  induction docs as [| d0 docs IH]; intros Hin Hd; [destruct Hin |].
  cbn [addFields_stage]. destruct (e d0) as [v | err0] eqn:E0.
  - destruct Hin as [-> | Hin]; [congruence |].
    destruct (IH Hin Hd) as [err' ->]. eauto.
  - eauto.
Qed.

Lemma addFields_stage_total {D E} (e : D -> settled E) (f : D -> E)
      (docs : list D) :
  (forall d, In d docs -> e d = Resolved (f d)) ->
  addFields_stage e docs = Resolved (map (fun d => (d, f d)) docs).
Proof.
  induction docs as [| d docs IH]; intros H; simpl; [reflexivity |].
  rewrite (H d) by (left; reflexivity).
  rewrite IH by (intros; apply H; right; assumption).
  reflexivity.
Qed.

Lemma filter_filter {A} (p q : A -> bool) (l : list A) :
  filter p (filter q l) = filter (fun x => q x && p x) l.
Proof.
  induction l as [| x l IH]; simpl; [reflexivity |].
  destruct (q x); simpl; [destruct (p x) |]; congruence.
Qed.

Lemma group_stage_map {D D' K} (eqb : K -> K -> bool) (f : D -> D')
      (key : D' -> field K) (docs : list D) :
  group_stage eqb key (map f docs)
  = map (fun g => (fst g, map f (snd g)))
        (group_stage eqb (fun d => key (f d)) docs).
Proof.
  unfold group_stage, group_keys. rewrite !map_map. simpl.
  apply map_ext. intros k. rewrite filter_map_swap. reflexivity.
Qed.

Lemma moviesPerYear_pipeline_eq (docs : list Movie.t) :
  existsb Spec.dated_then_line_feed docs = false ->
  moviesPerYear_pipeline docs
  = Resolved (sort_stage (ascending (field_leb Z.leb) YearCount._id)
                         (year_groups docs)).
Proof.
  intros Hnone. unfold moviesPerYear_pipeline, match_stage.
  rewrite (release_date_stage docs Hnone).
  rewrite (addFields_stage_total _ (fun d => Val (Spec.year_of d - 2000)%Z)).
  - cbn [and_then]. do 2 f_equal. unfold year_groups.
    rewrite map_map. cbn [snd expr_add].
    rewrite (map_ext _ (fun d => ((d, Val (Spec.year_of d - 2000)%Z),
                                  Val (Spec.year_of d))))
      by (intros d; do 2 f_equal; lia).
    rewrite group_stage_map, map_map. cbn [fst snd].
    unfold acc_sum_1. apply map_ext. intros g.
    rewrite length_map. reflexivity.
  - intros d Hd. apply filter_In in Hd. apply yearNum_of_dated, Hd.
Qed.

(** A date that a line feed follows fails the aggregation. *)
Lemma moviesPerYear_pipeline_fails (docs : list Movie.t) :
  existsb Spec.dated_then_line_feed docs = true ->
  exists err, moviesPerYear_pipeline docs = Rejected err.
Proof.
  intros Hsome. apply existsb_exists in Hsome. destruct Hsome as [d [Hd Hlf]].
  destruct (yearNum_of_line_feed d Hlf) as [text Htext].
  unfold moviesPerYear_pipeline, match_stage.
  destruct (@addFields_stage_rejects
              _ _
              (fun d => expr_toInt
                          (expr_arrayElemAt
                             (expr_split (Movie.ReleaseDate d) "-") 2))
              (filter (fun d => op_regex release_date_regex
                                         (Movie.ReleaseDate d)) docs)
              d (MongoError text)) as [err Herr].
  - apply filter_In. split; [exact Hd |].
    rewrite op_regex_release_date, Hlf. apply orb_true_r.
  - exact Htext.
  - rewrite Herr. exists err. reflexivity.
Qed.

Lemma getMoviesPerYear_fails (req : Request) (docs : list Movie.t) :
  existsb Spec.dated_then_line_feed docs = true ->
  exists text,
    getMoviesPerYear req (Movie.Up docs)
    = {| response := res_status_json 500 (JMessage text);
         store_requests := 1 |}.
Proof.
  intros Hsome. destruct (moviesPerYear_pipeline_fails docs Hsome) as [err H].
  exists (message err).
  unfold getMoviesPerYear, try_await, Movie.aggregate, Movie.send.
  cbn [outcome operations]. rewrite H. reflexivity.
Qed.

Lemma year_groups_sorted_perm (docs : list Movie.t) :
  Permutation (year_groups docs)
              (sort_stage (ascending (field_leb Z.leb) YearCount._id)
                          (year_groups docs)).
Proof. apply sort_stage_perm. Qed.

Lemma year_groups_ids (docs : list Movie.t) :
  map YearCount._id (year_groups docs)
  = group_keys Z.eqb (fun d => Val (Spec.year_of d)) (filter Spec.dated docs).
Proof.
  unfold year_groups. rewrite map_map. cbn [YearCount._id].
  apply (group_stage_keys Z.eqb).
Qed.

Lemma dated_in_filter (y : Z) (docs : list Movie.t) :
  filter (fun d => key_eqb Z.eqb (Val (Spec.year_of d)) (Val y))
         (filter Spec.dated docs)
  = Spec.dated_in y docs.
Proof. rewrite filter_filter. reflexivity. Qed.

Lemma year_groups_In (docs : list Movie.t) (g : YearCount.t) :
  In g (year_groups docs) ->
  exists y,
    YearCount._id g = Val y
    /\ YearCount.count g = List.length (Spec.dated_in y docs)
    /\ 0 < YearCount.count g.
Proof.
  unfold year_groups. rewrite in_map_iff. intros [[k ds] [<- Hin]].
  pose proof (group_stage_nonempty Z.eqb Z.eqb_eq _ _ _ Hin) as Hne.
  apply (group_stage_In Z.eqb) in Hin. cbn [fst snd] in *.
  destruct Hin as [Hk Hds].
  apply (group_keys_spec Z.eqb Z.eqb_eq) in Hk.
  destruct Hk as [d [_ Hd]]. cbn [group_key] in Hd. subst k.
  exists (Spec.year_of d). cbn [YearCount._id YearCount.count].
  split; [reflexivity |]. rewrite <- dated_in_filter, <- Hds.
  split; [reflexivity |]. destruct ds; [congruence | simpl; lia].
Qed.

Lemma year_groups_count_for (docs : list Movie.t) (y : Z) :
  Spec.count_for y (year_groups docs) = List.length (Spec.dated_in y docs).
Proof.
  unfold Spec.count_for, year_groups.
  rewrite filter_map_swap, map_map. cbn [YearCount._id YearCount.count].
  rewrite (group_stage_lookup Z.eqb Z.eqb_eq) by discriminate.
  rewrite dated_in_filter. reflexivity.
Qed.

Lemma year_groups_total (docs : list Movie.t) :
  list_sum (map YearCount.count (year_groups docs))
  = List.length (filter Spec.dated docs).
Proof.
  unfold year_groups. rewrite map_map. cbn [YearCount.count].
  apply (group_stage_total Z.eqb Z.eqb_eq).
Qed.

Lemma ascending_strict (l : list YearCount.t) :
  StronglySorted
    (fun a b => ascending (field_leb Z.leb) YearCount._id a b = true) l ->
  NoDup (map YearCount._id l) ->
  (forall g, In g l -> exists y, YearCount._id g = Val y) ->
  StronglySorted Spec.year_before l.
Proof.
  induction 1 as [| a l Hs IH Ha]; intros Hnd Hval; [constructor |].
  cbn [map] in Hnd. apply NoDup_cons_iff in Hnd. destruct Hnd as [Hnotin Hnd].
  constructor.
  - apply IH; [exact Hnd |]. intros g Hg. apply Hval. right. exact Hg.
  - rewrite Forall_forall in *. intros b Hb.
    specialize (Ha b Hb). unfold ascending in Ha. unfold Spec.year_before.
    destruct (Hval a (or_introl eq_refl)) as [x Hx].
    destruct (Hval b (or_intror Hb)) as [y Hy].
    rewrite Hx, Hy in Ha. rewrite Hx, Hy. cbn [field_leb] in Ha. apply Z.leb_le in Ha.
    assert (x <> y).
    { intros ->. apply Hnotin. rewrite Hx, <- Hy. apply in_map. exact Hb. }
    lia.
Qed.

(** C2: the handler departs from the claim.  The record whose
    ReleaseDate is "5-Jul-98" followed by a line feed does not match the
    pattern as a whole, so the claim has it left out and the answer an
    empty list of counts; but the [$] of the pattern lets the $match stage
    keep it, $toInt then refuses the piece after the second "-", and the
    handler answers 500.  The same happens on every store holding a
    record whose date is the date shape followed by a line feed. *)
Theorem CountByReleaseYear_fails_on_trailing_line_feed (req : Request) :
  filter Spec.dated dated_with_line_feed = []
  /\ filter (fun d => op_regex release_date_regex (Movie.ReleaseDate d))
            dated_with_line_feed
     = dated_with_line_feed
  /\ (exists text,
         getMoviesPerYear req (Movie.Up dated_with_line_feed)
         = {| response := res_status_json 500 (JMessage text);
              store_requests := 1 |})
  /\ response (getMoviesPerYear req (Movie.Up dated_with_line_feed))
     <> res_json (JYearCounts [])
  /\ forall docs,
      existsb Spec.dated_then_line_feed docs = true ->
      status (response (getMoviesPerYear req (Movie.Up docs))) = 500.
Proof.
  split; [reflexivity |]. split; [vm_compute; reflexivity |].
  split; [apply getMoviesPerYear_fails; reflexivity |].
  split; [vm_compute; discriminate |].
  intros docs Hsome.
  destruct (getMoviesPerYear_fails req docs Hsome) as [text ->].
  reflexivity.
Qed.

(** X13.  On every store in which no ReleaseDate is the date shape
    followed by a line feed, CountByReleaseYear answers with the year
    counts of exactly the records whose ReleaseDate has the date shape
    (1-2 digits, '-', 3 letters, '-', 2 digits): the $match stage keeps
    exactly these records; the year is 2000 plus the value of the trailing
    two digits, so the count listed for any year is the number of such
    records of that year ("5-Jul-98" counts under 2098); the counts add up
    to the number of records of the date shape; the years are strictly
    increasing; and ListAll still returns every record, whatever its
    date. *)
Theorem CountByReleaseYear_without_line_feeds
        (req : Request) (docs : list Movie.t) :
  existsb Spec.dated_then_line_feed docs = false ->
  exists result,
    getMoviesPerYear req (Movie.Up docs)
    = {| response := res_json (JYearCounts result); store_requests := 1 |}
    /\ filter (fun d => op_regex release_date_regex (Movie.ReleaseDate d))
              docs
       = filter Spec.dated docs
    /\ (forall y, Spec.count_for y result
                  = List.length (Spec.dated_in y docs))
    /\ (forall g, In g result ->
                  exists y, YearCount._id g = Val y
                            /\ YearCount.count g
                               = List.length (Spec.dated_in y docs)
                            /\ 0 < YearCount.count g)
    /\ list_sum (map YearCount.count result)
       = List.length (filter Spec.dated docs)
    /\ StronglySorted Spec.year_before result
    /\ Spec.year_of_date (chars "5-Jul-98") = 2098%Z
    /\ response (getMoviesPerYear
                   req (Movie.Up [movie 1 (Val "5-Jul-98") Absent Absent]))
       = res_json (JYearCounts [{| YearCount._id := Val 2098%Z;
                                   YearCount.count := 1 |}])
    /\ response (getAllMovies req (Movie.Up docs)) = res_json (JMovies docs).
Proof.
  intros Hnone.
  exists (sort_stage (ascending (field_leb Z.leb) YearCount._id)
                     (year_groups docs)).
  pose proof (year_groups_sorted_perm docs) as Hperm.
  split.
  { unfold getMoviesPerYear, try_await, Movie.aggregate, Movie.send.
    cbn [outcome operations].
    rewrite (moviesPerYear_pipeline_eq docs Hnone). reflexivity. }
  split; [exact (release_date_stage docs Hnone) |].
  split.
  { intros y. rewrite <- year_groups_count_for. unfold Spec.count_for.
    apply Permutation_list_sum, Permutation_map, filter_perm.
    symmetry. exact Hperm. }
  split.
  { intros g Hg. apply year_groups_In.
    eapply Permutation_in; [symmetry; exact Hperm | exact Hg]. }
  split.
  { rewrite <- year_groups_total.
    apply Permutation_list_sum, Permutation_map. symmetry. exact Hperm. }
  split.
  { apply ascending_strict.
    - apply sort_stage_sorted.
      + intros a b. unfold ascending.
        apply (field_leb_total Z.leb Z_leb_total).
      + intros a b c. unfold ascending.
        apply (field_leb_trans Z.leb Z_leb_trans).
    - eapply Permutation_NoDup; [apply Permutation_map; exact Hperm |].
      rewrite year_groups_ids.
      apply (group_keys_spec Z.eqb Z.eqb_eq).
    - intros g Hg.
      destruct (year_groups_In docs g) as [y [Hy _]].
      + eapply Permutation_in; [symmetry; exact Hperm | exact Hg].
      + exists y. exact Hy. }
  split; [reflexivity |].
  split; [reflexivity |].
  rewrite getAllMovies_up. reflexivity.
Qed.

Lemma CountByReleaseYear_without_line_feeds_witness :
  existsb Spec.dated_then_line_feed usa_10 = false
  /\ exists result,
      getMoviesPerYear (request "" None) (Movie.Up usa_10)
      = {| response := res_json (JYearCounts result); store_requests := 1 |}
      /\ list_sum (map YearCount.count result)
         = List.length (filter Spec.dated usa_10)
      /\ StronglySorted Spec.year_before result.
Proof.
  split; [reflexivity |].
  destruct (@CountByReleaseYear_without_line_feeds
              (request "" None) usa_10 eq_refl)
    as [result [H1 [_ [_ [_ [H5 [H6 _]]]]]]].
  exists result. auto.
Defined.

(** ** TopCountriesByRating *)

Lemma qualifying_stage (d : Movie.t) :
  op_exists (Movie.ReviewRating d) && op_ne_null (Movie.ReviewRating d)
  && op_exists (Movie.ReleaseCountry d) && op_ne_null (Movie.ReleaseCountry d)
  = Spec.qualifying d.
Proof.
  unfold Spec.qualifying.
  destruct (Movie.ReviewRating d), (Movie.ReleaseCountry d); reflexivity.
Qed.

Lemma topCountries_pipeline_unfiltered (pcre : Engine)
      (docs : list Movie.t) :
  topCountries_pipeline pcre None docs
  = Resolved (sort_stage by_avgRating_desc (large_groups docs)).
Proof.
  unfold topCountries_pipeline, match_stage.
  cbn [countryQuery_stages fold_left and_then].
  rewrite (filter_ext _ _ qualifying_stage). reflexivity.
Qed.

(** The pipeline with a search stage: what the engine makes of the text
    decides between a filtered list and a failure. *)
Lemma topCountries_pipeline_searched (pcre : Engine) (text : string)
      (docs : list Movie.t) :
  text <> "" ->
  topCountries_pipeline pcre (Some text) docs
  = match Regex.compile_pattern pcre true text with
    | Valid accepts =>
        Resolved
          (sort_stage by_avgRating_desc
             (filter (fun g => op_regex_match accepts (CountrySummary._id g))
                     (large_groups docs)))
    | Invalid error => Rejected (MongoError error)
    end.
Proof.
  intros Hne. unfold topCountries_pipeline, match_stage.
  unfold countryQuery_stages.
  replace (truthy (Some text)) with true
    by (destruct text; [congruence | reflexivity]).
  cbn [fold_left and_then]. unfold country_regex_stage, match_stage.
  rewrite (filter_ext _ _ qualifying_stage).
  destruct (Regex.compile_pattern pcre true text); reflexivity.
Qed.

(** The pipeline for an empty country parameter is the one without a
    parameter. *)
Lemma topCountries_pipeline_empty (pcre : Engine) (docs : list Movie.t) :
  topCountries_pipeline pcre (Some "") docs
  = topCountries_pipeline pcre None docs.
Proof. reflexivity. Qed.

Lemma by_avgRating_desc_total (a b : CountrySummary.t) :
  by_avgRating_desc a b = true \/ by_avgRating_desc b a = true.
Proof.
  unfold by_avgRating_desc, descending.
  destruct (field_leb_total Num.leb Num_leb_total
              (CountrySummary.avgRating a) (CountrySummary.avgRating b)); auto.
Qed.

Lemma by_avgRating_desc_trans (a b c : CountrySummary.t) :
  by_avgRating_desc a b = true -> by_avgRating_desc b c = true ->
  by_avgRating_desc a c = true.
Proof.
  unfold by_avgRating_desc, descending. intros Hab Hbc.
  exact (field_leb_trans Num.leb Num_leb_trans _ _ _ Hbc Hab).
Qed.

Lemma qualifying_of_filter (country : string) (docs : list Movie.t) :
  filter (fun d => key_eqb String.eqb (Movie.ReleaseCountry d) (Val country))
         (filter Spec.qualifying docs)
  = Spec.qualifying_of country docs.
Proof.
  rewrite filter_filter. apply filter_ext. intros d.
  destruct (Movie.ReleaseCountry d); reflexivity.
Qed.

Lemma qualifying_of_In (country : string) (docs : list Movie.t) (d : Movie.t) :
  In d (Spec.qualifying_of country docs) ->
  In d docs /\ Spec.qualifying d = true
  /\ Movie.ReleaseCountry d = Val country.
Proof.
  unfold Spec.qualifying_of. rewrite filter_In, andb_true_iff.
  intros [Hd [Hq Hc]]. repeat split; try assumption.
  destruct (Movie.ReleaseCountry d); try discriminate.
  apply String.eqb_eq in Hc. congruence.
Qed.

Lemma ratings_length (docs : list Movie.t) :
  (forall d, In d docs -> Spec.qualifying d = true) ->
  List.length (Spec.ratings docs) = List.length docs.
Proof.
  unfold Spec.ratings, numeric_values.
  induction docs as [| d docs IH]; intros H; [reflexivity |].
  cbn [map flat_map]. rewrite length_app, IH
    by (intros; apply H; right; assumption).
  specialize (H d (or_introl eq_refl)). unfold Spec.qualifying in H.
  destruct (Movie.ReviewRating d); try discriminate. reflexivity.
Qed.

(** What a group of the pipeline holds. *)
Lemma country_groups_In (docs : list Movie.t) (g : CountrySummary.t) :
  In g (country_groups docs) <->
  exists country,
    Spec.qualifying_of country docs <> []
    /\ g = {| CountrySummary._id := Val country;
              CountrySummary.avgRating :=
                acc_avg (map Movie.ReviewRating
                             (Spec.qualifying_of country docs));
              CountrySummary.movieCount :=
                List.length (Spec.qualifying_of country docs) |}.
Proof.
  unfold country_groups. rewrite in_map_iff. split.
  - intros [[k ds] [<- Hin]].
    pose proof (group_stage_nonempty String.eqb String.eqb_eq _ _ _ Hin) as Hne.
    apply (group_stage_In String.eqb) in Hin. cbn [fst snd] in *.
    destruct Hin as [Hk Hds].
    apply (group_keys_spec String.eqb String.eqb_eq) in Hk.
    destruct Hk as [d [Hd Hkd]]. apply filter_In in Hd. destruct Hd as [_ Hq].
    unfold Spec.qualifying in Hq. apply andb_true_iff in Hq.
    destruct Hq as [_ Hc].
    destruct (Movie.ReleaseCountry d) as [| | country]; try discriminate.
    cbn [group_key] in Hkd. subst k. exists country.
    rewrite qualifying_of_filter in Hds. subst ds. auto.
  - intros [country [Hne ->]].
    exists (Val country, Spec.qualifying_of country docs). split; [reflexivity |].
    apply (group_stage_In String.eqb). cbn [fst snd].
    split; [| symmetry; apply qualifying_of_filter].
    apply (group_keys_spec String.eqb String.eqb_eq).
    destruct (Spec.qualifying_of country docs) as [| d l] eqn:E; [congruence |].
    assert (Hd : In d (Spec.qualifying_of country docs))
      by (rewrite E; left; reflexivity).
    apply qualifying_of_In in Hd. destruct Hd as [Hd [Hq Hc]].
    exists d. split; [apply filter_In; auto |]. rewrite Hc. reflexivity.
Qed.

Lemma country_groups_ids (docs : list Movie.t) :
  NoDup (map CountrySummary._id (country_groups docs)).
Proof.
  unfold country_groups. rewrite map_map. cbn [CountrySummary._id].
  change (fun x : field string * list Movie.t => fst x) with
    (@fst (field string) (list Movie.t)).
  rewrite (group_stage_keys String.eqb).
  apply (group_keys_spec String.eqb String.eqb_eq).
Qed.

Lemma filter_keeps_distinct_keys {D K} (key : D -> K) (keep : D -> bool)
      (docs : list D) (Hkeys : NoDup (map key docs)) :
  NoDup (map key (filter keep docs)).
Proof.
  revert Hkeys. induction docs as [| d docs IH]; cbn [map filter]; intros H;
    [constructor |].
  apply NoDup_cons_iff in H. destruct H as [Hd Hrest].
  destruct (keep d); [| apply IH, Hrest].
  cbn [map]. constructor; [| apply IH, Hrest].
  intros Hin. apply Hd. apply in_map_iff in Hin.
  destruct Hin as [d' [Hkey Hin]]. apply filter_In in Hin.
  apply in_map_iff. exists d'. tauto.
Qed.

(** The sum of finite numbers is the finite sum. *)
Lemma Num_sum_finite (qs : list Q) (a0 : Q) :
  exists q, fold_left Num.add (map Fin qs) (Fin a0) = Fin q
            /\ (q == a0 + fold_right Qplus 0 qs)%Q.
Proof.
  revert a0. induction qs as [| x qs IH]; intros a0; cbn [map fold_left fold_right].
  - exists a0. split; [reflexivity |]. rewrite Qplus_0_r. reflexivity.
  - cbn [Num.add]. destruct (IH (Qred (a0 + x))) as [q [Hq Heq]].
    exists q. split; [exact Hq |].
    rewrite Heq, Qred_correct. rewrite Qplus_assoc. reflexivity.
Qed.

Lemma mean_finite (qs : list Q) :
  exists a, Num.div_count (Num.sum (map Fin qs)) (List.length (map Fin qs))
            = Fin a
            /\ (a == Spec.Qmean qs)%Q.
Proof.
  unfold Num.sum. destruct (Num_sum_finite qs 0) as [q [Hq Heq]].
  rewrite Hq. cbn [Num.div_count]. eexists. split; [reflexivity |].
  rewrite Qred_correct, Heq, Qplus_0_l, length_map. reflexivity.
Qed.

Lemma acc_avg_qualifying (docs : list Movie.t) :
  docs <> [] ->
  (forall d, In d docs -> Spec.qualifying d = true) ->
  acc_avg (map Movie.ReviewRating docs)
  = Val (Num.div_count (Num.sum (Spec.ratings docs)) (List.length docs)).
Proof.
  intros Hne Hq. unfold acc_avg. fold (Spec.ratings docs).
  pose proof (ratings_length docs Hq) as Hlen.
  destruct (Spec.ratings docs) as [| x xs] eqn:E.
  - destruct docs; [congruence | discriminate].
  - rewrite Hlen. reflexivity.
Qed.

Lemma getTopCountriesByRating_unfiltered (pcre : Engine) (rating : string)
      (docs : list Movie.t) :
  getTopCountriesByRating pcre (request rating None) (Movie.Up docs)
  = {| response :=
         res_json (JCountries (sort_stage by_avgRating_desc
                                          (large_groups docs)));
       store_requests := 1 |}.
Proof.
  unfold getTopCountriesByRating, Movie.aggregate, Movie.send, try_await.
  cbn [query_country request outcome operations].
  rewrite topCountries_pipeline_unfiltered. reflexivity.
Qed.

Lemma large_groups_In (docs : list Movie.t) (g : CountrySummary.t) :
  In g (large_groups docs) <->
  exists country,
    10 <= List.length (Spec.qualifying_of country docs)
    /\ g = {| CountrySummary._id := Val country;
              CountrySummary.avgRating :=
                Val (Num.div_count
                       (Num.sum (Spec.ratings
                                   (Spec.qualifying_of country docs)))
                       (List.length (Spec.qualifying_of country docs)));
              CountrySummary.movieCount :=
                List.length (Spec.qualifying_of country docs) |}.
Proof.
  unfold large_groups. rewrite filter_In, country_groups_In. split.
  - intros [[country [Hne ->]] Hlarge]. cbn [CountrySummary.movieCount] in Hlarge.
    apply Nat.leb_le in Hlarge. exists country. split; [exact Hlarge |].
    rewrite acc_avg_qualifying; [reflexivity | exact Hne |].
    intros d Hd. apply qualifying_of_In in Hd. tauto.
  - intros [country [Hlarge ->]].
    assert (Hne : Spec.qualifying_of country docs <> []).
    { intros E. rewrite E in Hlarge. simpl in Hlarge. lia. }
    split.
    + exists country. split; [exact Hne |].
      rewrite acc_avg_qualifying; [reflexivity | exact Hne |].
      intros d Hd. apply qualifying_of_In in Hd. tauto.
    + cbn [CountrySummary.movieCount]. apply Nat.leb_le. exact Hlarge.
Qed.

(** C1.  With no filter, for every store state, TopCountriesByRating
    answers 200 with exactly one group per ReleaseCountry value that has
    at least 10 qualifying records; each group carries the number of
    qualifying records of its country (at least 10) and the mean of their
    ratings; the groups are sorted by average rating, descending; and for
    12 Norway records averaging 7.5 and 9 Sweden records averaging 9.0
    only Norway's summary is returned. *)
Theorem TopCountriesByRating_summaries (pcre : Engine) (rating : string)
        (docs : list Movie.t) :
  exists groups,
    getTopCountriesByRating pcre (request rating None) (Movie.Up docs)
    = {| response := res_json (JCountries groups);
         store_requests := 1 |}
    /\ NoDup (map CountrySummary._id groups)
    /\ (forall country,
           (exists g, In g groups /\ CountrySummary._id g = Val country) <->
           10 <= List.length (Spec.qualifying_of country docs))
    /\ (forall g,
           In g groups ->
           exists country,
             CountrySummary._id g = Val country
             /\ CountrySummary.movieCount g
                = List.length (Spec.qualifying_of country docs)
             /\ 10 <= CountrySummary.movieCount g
             /\ CountrySummary.avgRating g
                = Val (Num.div_count
                         (Num.sum (Spec.ratings
                                     (Spec.qualifying_of country docs)))
                         (CountrySummary.movieCount g))
             /\ forall qs,
                 Spec.ratings (Spec.qualifying_of country docs) = map Fin qs ->
                 exists a, CountrySummary.avgRating g = Val (Fin a)
                           /\ (a == Spec.Qmean qs)%Q)
    /\ (forall a b,
           Spec.ranked_before groups a b ->
           field_leb Num.leb (CountrySummary.avgRating b)
                     (CountrySummary.avgRating a) = true
           /\ forall x y,
               CountrySummary.avgRating a = Val x ->
               CountrySummary.avgRating b = Val y ->
               isNaN y = false -> Num.geb x y = true)
    /\ getTopCountriesByRating pcre (request rating None)
                               (Movie.Up norway_sweden)
       = {| response :=
              res_json
                (JCountries
                   [{| CountrySummary._id := Val "Norway";
                       CountrySummary.avgRating := Val (Fin (15 # 2));
                       CountrySummary.movieCount := 12 |}]);
            store_requests := 1 |}.
Proof.
  exists (sort_stage by_avgRating_desc (large_groups docs)).
  assert (Hin : forall g, In g (sort_stage by_avgRating_desc (large_groups docs))
                          <-> In g (large_groups docs))
    by (intros; apply sort_stage_In).
  split; [apply getTopCountriesByRating_unfiltered |].
  split.
  { eapply Permutation_NoDup;
      [apply Permutation_map, sort_stage_perm |].
    apply filter_keeps_distinct_keys, country_groups_ids. }
  split.
  { intros country. split.
    - intros [g [Hg Hid]]. apply Hin, large_groups_In in Hg.
      destruct Hg as [c [Hlarge ->]]. cbn [CountrySummary._id] in Hid.
      injection Hid as ->. exact Hlarge.
    - intros Hlarge. eexists. split.
      + apply Hin, large_groups_In. exists country. split; [exact Hlarge |].
        reflexivity.
      + reflexivity. }
  split.
  { intros g Hg. apply Hin, large_groups_In in Hg.
    destruct Hg as [country [Hlarge ->]]. exists country.
    cbn [CountrySummary._id CountrySummary.movieCount CountrySummary.avgRating].
    repeat (split; [first [reflexivity | exact Hlarge] |]).
    intros qs Hqs. rewrite Hqs.
    assert (Hlen : List.length (Spec.qualifying_of country docs)
                   = List.length (map Fin qs)).
    { rewrite <- Hqs. symmetry. apply ratings_length.
      intros d Hd. apply qualifying_of_In in Hd. tauto. }
    rewrite Hlen. destruct (mean_finite qs) as [a [Ha Heq]].
    exists a. rewrite Ha. split; [reflexivity | exact Heq]. }
  split.
  { intros a b [l1 [l2 [l3 Hl]]].
    assert (H : by_avgRating_desc a b = true).
    { eapply sorted_ranked; [| exact Hl].
      apply sort_stage_sorted;
        [apply by_avgRating_desc_total | apply by_avgRating_desc_trans]. }
    split; [exact H |].
    intros x y Ha Hb Hy. unfold by_avgRating_desc, descending in H.
    rewrite Ha, Hb in H. cbn [field_leb] in H.
    apply Num_leb_geb; assumption. }
  vm_compute. reflexivity.
Qed.

(** ** The NotFound outcome *)

Lemma truthy_iff (countryQuery : option string) :
  truthy countryQuery = true <->
  exists text, countryQuery = Some text /\ text <> "".
Proof.
  destruct countryQuery as [[| c s] |]; simpl; split;
    try discriminate; try (intros [t [H1 H2]]; congruence).
  intros _. eexists. split; [reflexivity | discriminate].
Qed.

Lemma length_zero_nil {A} (l : list A) : (List.length l =? 0) = true <-> l = [].
Proof. destruct l; simpl; split; congruence. Qed.

(** C3.  TopCountriesByRating answers 404 exactly when a non-empty filter
    was supplied and the pipeline came back with zero groups, whatever
    the filter and whatever the store; the body of the 404 carries the
    filter in the message [Country "<filter>" not found or has fewer than
    10 movies.]; and with no filter and zero qualifying countries the
    answer is 200 with an empty list. *)
Theorem TopCountriesByRating_not_found
        (pcre : Engine) (req : Request) (db : Movie.Store) :
  (status (response (getTopCountriesByRating pcre req db)) = 404 <->
   (exists text, query_country req = Some text /\ text <> "")
   /\ exists docs,
       db = Movie.Up docs
       /\ topCountries_pipeline pcre (query_country req) docs = Resolved [])
  /\ (status (response (getTopCountriesByRating pcre req db)) = 404 ->
      exists text,
        query_country req = Some text
        /\ body (response (getTopCountriesByRating pcre req db))
           = JMessage ("Country " ++ dquote ++ text ++ dquote
                       ++ " not found or has fewer than 10 movies."))
  /\ (query_country req = None ->
      forall docs,
        db = Movie.Up docs ->
        topCountries_pipeline pcre None docs = Resolved [] ->
        getTopCountriesByRating pcre req db
        = {| response := res_json (JCountries []); store_requests := 1 |}).
Proof.
  unfold getTopCountriesByRating, Movie.aggregate, Movie.send, try_await.
  rewrite <- truthy_iff.
  destruct db as [docs | reason]; cbn [outcome operations response].
  - destruct (topCountries_pipeline pcre (query_country req) docs)
      as [groups | e] eqn:E.
    + destruct (truthy (query_country req)) eqn:T; cbn [andb].
      * destruct groups as [| g groups]; cbn [List.length Nat.eqb].
        -- split; [| split].
           ++ split; [| reflexivity]. intros _. split; [reflexivity |].
              exists docs. auto.
           ++ intros _. apply truthy_iff in T. destruct T as [text [Ht _]].
              exists text. rewrite Ht. split; reflexivity.
           ++ intros Hn. rewrite Hn in T. discriminate.
        -- split; [| split].
           ++ split; [discriminate |].
              intros [_ [docs' [Hd Hp]]]. injection Hd as <-. congruence.
           ++ discriminate.
           ++ intros Hn. rewrite Hn in T. discriminate.
      * split; [| split].
        -- split; [discriminate | intros [? _]; discriminate].
        -- discriminate.
        -- intros Hn docs' Hd Hp. injection Hd as <-.
           rewrite Hn in E. rewrite Hp in E. injection E as <-. reflexivity.
    + split; [| split].
      * split; [discriminate |].
        intros [_ [docs' [Hd Hp]]]. injection Hd as <-. congruence.
      * discriminate.
      * intros Hn docs' Hd Hp. injection Hd as <-. rewrite Hn in E. congruence.
  - split; [| split].
    + split; [discriminate |]. intros [_ [docs [Hd _]]]. discriminate.
    + discriminate.
    + intros _ docs Hd. discriminate.
Qed.

(** ** An empty filter *)

Lemma no_large_groups (docs : list Movie.t) :
  (forall country, List.length (Spec.qualifying_of country docs) < 10) ->
  large_groups docs = [].
Proof.
  intros H. destruct (large_groups docs) as [| g l] eqn:E; [reflexivity |].
  assert (Hg : In g (large_groups docs)) by (rewrite E; left; reflexivity).
  apply large_groups_In in Hg. destruct Hg as [country [Hlarge _]].
  specialize (H country). lia.
Qed.

(** C10.  An empty-string country parameter is treated exactly as a
    missing one: no $match stage is added for it, the handler answers as
    it does without a filter, it never answers 404, and when no country
    has 10 qualifying records it answers 200 with an empty list. *)
Theorem empty_country_is_no_filter (pcre : Engine) (rating : string)
        (db : Movie.Store) :
  countryQuery_stages pcre (Some "") = countryQuery_stages pcre None
  /\ countryQuery_stages pcre (Some "") = []
  /\ getTopCountriesByRating pcre (request rating (Some "")) db
     = getTopCountriesByRating pcre (request rating None) db
  /\ status (response (getTopCountriesByRating
                         pcre (request rating (Some "")) db)) <> 404
  /\ forall docs,
      db = Movie.Up docs ->
      (forall country, List.length (Spec.qualifying_of country docs) < 10) ->
      getTopCountriesByRating pcre (request rating (Some "")) db
      = {| response := res_json (JCountries []); store_requests := 1 |}.
Proof.
  split; [reflexivity |]. split; [reflexivity |].
  assert (Hsame : getTopCountriesByRating pcre (request rating (Some "")) db
                  = getTopCountriesByRating pcre (request rating None) db).
  { unfold getTopCountriesByRating. cbn [query_country request truthy andb].
    reflexivity. }
  split; [exact Hsame |]. rewrite Hsame. split.
  - destruct db as [docs | reason].
    + rewrite getTopCountriesByRating_unfiltered. discriminate.
    + discriminate.
  - intros docs -> Hnone. rewrite getTopCountriesByRating_unfiltered.
    rewrite (no_large_groups docs Hnone). reflexivity.
Qed.

(** ** The country filter *)

Lemma starts_with_spec (p s : list ascii) :
  starts_with p s = true <-> exists post, s = p ++ post.
Proof.
  revert s. induction p as [| a p IH]; intros s; cbn [starts_with].
  - split; [intros _; exists s; reflexivity | reflexivity].
  - destruct s as [| b s].
    + split; [discriminate | intros [post H]; discriminate].
    + rewrite andb_true_iff, Ascii.eqb_eq, IH. split.
      * intros [-> [post ->]]. exists post. reflexivity.
      * intros [post H]. injection H as -> ->. split; [reflexivity |].
        exists post. reflexivity.
Qed.

Lemma contains_spec (needle hay : list ascii) :
  Spec.contains needle hay = true <->
  exists pre post, hay = pre ++ needle ++ post.
Proof.
  induction hay as [| c hay IH]; cbn [Spec.contains];
    rewrite orb_true_iff, starts_with_spec.
  - split.
    + intros [[post H] | H]; [| discriminate]. exists [], post. exact H.
    + intros [pre [post H]]. left. destruct pre; [| discriminate].
      exists post. exact H.
  - rewrite IH. split.
    + intros [[post H] | [pre [post H]]].
      * exists [], post. exact H.
      * exists (c :: pre), post. rewrite H. reflexivity.
    + intros [pre [post H]]. destruct pre as [| c' pre].
      * left. exists post. exact H.
      * right. injection H as -> ->. exists pre, post. reflexivity.
Qed.

Lemma lang_literal (l s : list ascii) :
  lang (literal_regex true l) s <-> map to_lower s = map to_lower l.
Proof.
  revert s. induction l as [| c l IH]; intros s; cbn [literal_regex map].
  - split.
    + intros H. apply lang_eps_inv in H. subst. reflexivity.
    + intros H. apply map_eq_nil in H. subst. constructor.
  - split.
    + intros H. apply lang_cat_inv in H. destruct H as [s1 [s2 [-> [H1 H2]]]].
      apply lang_chr_inv in H1. destruct H1 as [x [-> Hx]].
      unfold literal in Hx. apply Ascii.eqb_eq in Hx.
      apply IH in H2. cbn [app map]. congruence.
    + intros H. destruct s as [| x s]; [discriminate |].
      cbn [map] in H. injection H as Hx Hs.
      change (x :: s) with ([x] ++ s). constructor.
      * constructor. unfold literal. apply Ascii.eqb_eq. exact Hx.
      * apply IH. exact Hs.
Qed.

Lemma test_unanchored (r : regex) (s : list ascii) :
  Regex.test {| anchored_start := false; anchored_end := false;
                expression := r |} s = true <->
  exists pre mid post, s = pre ++ mid ++ post /\ lang r mid.
Proof.
  unfold Regex.test. cbn [anchored_start anchored_end expression].
  rewrite matches_lang. split.
  - intros H. apply lang_cat_inv in H. destruct H as [pre [s2 [-> [_ H]]]].
    apply lang_cat_inv in H. destruct H as [mid [post [-> [H _]]]].
    exists pre, mid, post. auto.
  - intros [pre [mid [post [-> H]]]].
    constructor; [apply lang_anything |].
    constructor; [exact H | apply lang_anything].
Qed.

Lemma not_meta (c : ascii) :
  is_meta c = false -> Ascii.eqb c "." = false /\ Ascii.eqb c "\" = false.
Proof.
  destruct c as [[] [] [] [] [] [] [] []]; vm_compute; intros H;
    try discriminate H; split; reflexivity.
Qed.

Lemma compile_body_plain (l : list ascii) :
  forallb (fun c => negb (is_meta c) && is_ascii c
                    && negb (Ascii.eqb c zero)) l = true ->
  compile_body true l = Some (literal_regex true l).
Proof.
  induction l as [| c l IH]; cbn [forallb compile_body literal_regex];
    [reflexivity |].
  intros H. apply andb_true_iff in H. destruct H as [Hc Hl].
  apply andb_true_iff in Hc. destruct Hc as [Hc Hz].
  apply andb_true_iff in Hc. destruct Hc as [Hm Ha].
  apply negb_true_iff in Hm, Hz.
  destruct (not_meta c Hm) as [-> ->]. rewrite Hm, Ha, Hz. cbn [negb orb].
  rewrite (IH Hl). reflexivity.
Qed.

(** On a text without metacharacters the $regex stage is literal
    substring search, ignoring case. *)
Lemma plain_filter_is_substring (text : string) (p : pattern)
      (country : string) :
  Spec.plain_text text = true ->
  Regex.compile true text = Some p ->
  op_regex p (Val country) = Spec.contains_ignoring_case country text.
Proof.
  intros Hplain Hp. unfold Regex.compile in Hp.
  rewrite (compile_body_plain _ Hplain) in Hp. cbn [option_map] in Hp.
  injection Hp as <-. unfold op_regex, op_regex_match.
  apply eq_true_iff_eq. rewrite test_unanchored.
  unfold Spec.contains_ignoring_case. rewrite contains_spec. split.
  - intros [pre [mid [post [-> H]]]]. apply lang_literal in H.
    exists (map to_lower pre), (map to_lower post).
    rewrite !map_app, H. reflexivity.
  - intros [pre [post H]].
    apply map_eq_app in H. destruct H as [pre' [rest [-> [_ H]]]].
    apply map_eq_app in H. destruct H as [mid [post' [-> [H _]]]].
    exists pre', mid, post'. split; [reflexivity |].
    apply lang_literal. exact H.
Qed.

Lemma plain_text_compiles (text : string) :
  Spec.plain_text text = true ->
  Regex.compile true text
  = Some {| anchored_start := false; anchored_end := false;
            expression := literal_regex true (chars text) |}.
Proof.
  intros Hplain. unfold Regex.compile.
  rewrite (compile_body_plain _ Hplain). reflexivity.
Qed.

(** What the handler answers to a non-empty filter, whatever the text:
    the engine's verdict on the text decides between the groups its
    pattern accepts and the failure of the aggregation. *)
Lemma getTopCountriesByRating_searched (pcre : Engine) (rating text : string)
      (docs : list Movie.t) :
  text <> "" ->
  getTopCountriesByRating pcre (request rating (Some text)) (Movie.Up docs)
  = match Regex.compile_pattern pcre true text with
    | Valid accepts =>
        searched_answer
          text
          (sort_stage by_avgRating_desc
             (filter (fun g => op_regex_match accepts (CountrySummary._id g))
                     (large_groups docs)))
    | Invalid error =>
        {| response := res_status_json 500 (JMessage error);
           store_requests := 1 |}
    end.
Proof.
  intros Hne.
  unfold getTopCountriesByRating, Movie.aggregate, Movie.send, try_await.
  cbn [query_country request outcome operations].
  rewrite (topCountries_pipeline_searched pcre docs Hne).
  replace (truthy (Some text)) with true
    by (destruct text; [congruence | reflexivity]).
  cbn [andb]. unfold searched_answer.
  destruct (Regex.compile_pattern pcre true text) as [accepts | error];
    [| reflexivity].
  destruct (sort_stage by_avgRating_desc
              (filter (fun g => op_regex_match accepts (CountrySummary._id g))
                      (large_groups docs))); reflexivity.
Qed.

(** What the handler answers to a non-empty filter without pattern
    metacharacters. *)
Lemma getTopCountriesByRating_plain (pcre : Engine) (rating text : string)
      (docs : list Movie.t) :
  Spec.plain_text text = true -> text <> "" ->
  getTopCountriesByRating pcre (request rating (Some text)) (Movie.Up docs)
  = searched_answer
      text
      (sort_stage by_avgRating_desc
                  (filter (kept_by text) (large_groups docs))).
Proof.
  intros Hplain Hne.
  pose proof (plain_text_compiles text Hplain) as Hp.
  rewrite (getTopCountriesByRating_searched pcre rating docs Hne).
  unfold Regex.compile_pattern. rewrite Hp.
  rewrite (filter_ext _ (kept_by text)); [reflexivity |].
  intros g. unfold kept_by.
  destruct (CountrySummary._id g) as [| | country]; try reflexivity.
  apply (plain_filter_is_substring _ _ Hplain Hp).
Qed.

(** C4, as stated, fails: the filter "." keeps the group of "USA", whose
    name does not contain a full stop. *)
Lemma dot_filter_keeps_USA :
  Spec.contains_ignoring_case "USA" "." = false
  /\ getTopCountriesByRating unconsulted (request "" (Some "."))
                             (Movie.Up usa_10)
     = {| response :=
            res_json
              (JCountries
                 [{| CountrySummary._id := Val "USA";
                     CountrySummary.avgRating := Val (Fin (11 # 2));
                     CountrySummary.movieCount := 10 |}]);
          store_requests := 1 |}.
Proof. split; vm_compute; reflexivity. Qed.

(** C4, amended.  A supplied (non-empty) filter is handed to the store's
    $regex as the text of a case-insensitive, unanchored pattern, whatever
    the text is.  When the engine accepts the text as a pattern, a group
    is kept exactly when that pattern matches its country name, and the
    answer is 200 with the kept groups, or 404 when none is kept; when the
    engine refuses the text, the answer is 500 with the engine's error as
    the message.  A text of the modelled pattern fragment is always
    accepted, with the matcher of its compiled pattern.  For a filter
    without pattern metacharacters the match is containment of the filter
    as a case-insensitive literal substring; in particular the filter "us"
    keeps the group of "USA". *)
Theorem countryFilter_is_a_pattern (pcre : Engine) (rating text : string)
        (docs : list Movie.t) :
  text <> "" ->
  exists all,
    getTopCountriesByRating pcre (request rating None) (Movie.Up docs)
    = {| response := res_json (JCountries all); store_requests := 1 |}
    /\ match Regex.compile_pattern pcre true text with
       | Valid accepts =>
           exists kept,
             getTopCountriesByRating pcre (request rating (Some text))
                                     (Movie.Up docs)
             = {| response :=
                    match kept with
                    | [] => res_status_json
                              404 (JMessage (not_found_message (Some text)))
                    | _ => res_json (JCountries kept)
                    end;
                  store_requests := 1 |}
             /\ forall g,
                 In g kept <->
                 In g all
                 /\ op_regex_match accepts (CountrySummary._id g) = true
       | Invalid error =>
           getTopCountriesByRating pcre (request rating (Some text))
                                   (Movie.Up docs)
           = {| response := res_status_json 500 (JMessage error);
                store_requests := 1 |}
       end
    /\ (forall p,
           Regex.compile true text = Some p ->
           Regex.compile_pattern pcre true text = Valid (Regex.test p)
           /\ anchored_start p = false /\ anchored_end p = false)
    /\ (Spec.plain_text text = true ->
        exists kept,
          getTopCountriesByRating pcre (request rating (Some text))
                                  (Movie.Up docs)
          = {| response :=
                 match kept with
                 | [] => res_status_json
                           404 (JMessage (not_found_message (Some text)))
                 | _ => res_json (JCountries kept)
                 end;
               store_requests := 1 |}
          /\ forall g,
              In g kept <->
              In g all
              /\ exists country,
                  CountrySummary._id g = Val country
                  /\ Spec.contains_ignoring_case country text = true)
    /\ getTopCountriesByRating pcre (request rating (Some "us"))
                               (Movie.Up usa_10)
       = {| response :=
              res_json
                (JCountries
                   [{| CountrySummary._id := Val "USA";
                       CountrySummary.avgRating := Val (Fin (11 # 2));
                       CountrySummary.movieCount := 10 |}]);
            store_requests := 1 |}.
Proof.
  intros Hne.
  exists (sort_stage by_avgRating_desc (large_groups docs)).
  split; [apply getTopCountriesByRating_unfiltered |].
  split.
  { rewrite (getTopCountriesByRating_searched pcre rating docs Hne).
    destruct (Regex.compile_pattern pcre true text) as [accepts | error];
      [| reflexivity].
    eexists. split; [reflexivity |].
    intros g. rewrite !sort_stage_In, filter_In. reflexivity. }
  split.
  { intros p Hp. unfold Regex.compile_pattern. rewrite Hp.
    split; [reflexivity |].
    unfold Regex.compile in Hp.
    destruct (compile_body true (chars text)); [| discriminate].
    cbn [option_map] in Hp. injection Hp as <-. split; reflexivity. }
  split.
  { intros Hplain.
    rewrite (getTopCountriesByRating_plain pcre rating docs Hplain Hne).
    eexists. split; [reflexivity |].
    intros g. rewrite !sort_stage_In, filter_In. unfold kept_by.
    split.
    - intros [Hin Hk]. split; [exact Hin |].
      destruct (CountrySummary._id g) as [| | country]; try discriminate.
      exists country. split; [reflexivity | exact Hk].
    - intros [Hin [country [Hid Hk]]]. split; [exact Hin |].
      rewrite Hid. exact Hk. }
  rewrite (@getTopCountriesByRating_plain pcre rating "us" usa_10);
    [| reflexivity | discriminate].
  vm_compute. reflexivity.
Qed.

Lemma countryFilter_is_a_pattern_witness :
  "us" <> ""
  /\ exists all kept,
      getTopCountriesByRating unconsulted (request "" None) (Movie.Up usa_10)
      = {| response := res_json (JCountries all); store_requests := 1 |}
      /\ getTopCountriesByRating unconsulted (request "" (Some "us"))
                                 (Movie.Up usa_10)
         = {| response :=
                match kept with
                | [] => res_status_json
                          404 (JMessage (not_found_message (Some "us")))
                | _ => res_json (JCountries kept)
                end;
              store_requests := 1 |}
      /\ forall g,
          In g kept <->
          In g all
          /\ exists country,
              CountrySummary._id g = Val country
              /\ Spec.contains_ignoring_case country "us" = true.
Proof.
  split; [discriminate |].
  destruct (@countryFilter_is_a_pattern unconsulted "" "us" usa_10)
    as [all [H1 [_ [_ [H4 _]]]]]; [discriminate |].
  destruct (H4 eq_refl) as [kept [H2 H3]].
  exists all, kept. auto.
Defined.

(** ** Store failures *)

(** C8.  When the store fails a request with an error text, each of the
    five operations answers 500 with that text as the message, after a
    single request to the store.  ListByMinimumRating sends its request
    only for a threshold other than NaN; whenever it reaches the failing
    store this is its answer, and its answer is a 500 with a message in
    every case.  TopCountriesByRating answers 500, never 404, whatever
    filter it was given. *)
Theorem store_failure_is_500 (pcre : Engine) (req : Request)
        (reason : string) :
  let failed :=
    {| response := res_status_json 500 (JMessage reason);
       store_requests := 1 |} in
  getAllMovies req (Movie.Down reason) = failed
  /\ (0 < store_requests
            (getMoviesWithRatingAboveSpecified req (Movie.Down reason)) ->
      getMoviesWithRatingAboveSpecified req (Movie.Down reason) = failed)
  /\ (isNaN (parseFloat (params_rating req)) = false ->
      getMoviesWithRatingAboveSpecified req (Movie.Down reason) = failed)
  /\ (exists text,
         response (getMoviesWithRatingAboveSpecified req (Movie.Down reason))
         = res_status_json 500 (JMessage text))
  /\ getMoviesWithBestRating req (Movie.Down reason) = failed
  /\ getMoviesPerYear req (Movie.Down reason) = failed
  /\ getTopCountriesByRating pcre req (Movie.Down reason) = failed
  /\ status (response (getTopCountriesByRating pcre req (Movie.Down reason)))
     = 500
  /\ status (response (getTopCountriesByRating pcre req (Movie.Down reason)))
     <> 404.
Proof.
  intros failed.
  assert (Hrating :
            isNaN (parseFloat (params_rating req)) = false ->
            getMoviesWithRatingAboveSpecified req (Movie.Down reason) = failed).
  { intros Hnum. unfold getMoviesWithRatingAboveSpecified, Movie.exec.
    cbn [Movie.find Movie.filter_of Movie.cast]. unfold Movie.castNumber.
    rewrite Hnum. reflexivity. }
  split; [reflexivity |].
  split.
  { destruct (isNaN (parseFloat (params_rating req))) eqn:E.
    - rewrite (rating_cast_rejected req (Movie.Down reason) E).
      cbn [store_requests]. lia.
    - intros _. apply Hrating. reflexivity. }
  split; [exact Hrating |].
  split.
  { destruct (isNaN (parseFloat (params_rating req))) eqn:E.
    - rewrite (rating_cast_rejected req (Movie.Down reason) E).
      eexists. reflexivity.
    - rewrite (Hrating eq_refl). eexists. reflexivity. }
  split; [reflexivity |].
  split; [reflexivity |].
  split; [reflexivity |].
  split; [reflexivity |].
  cbn. discriminate.
Qed.

(** * Further properties of the handlers *)

(** ** The router *)

(** Whenever the country pipeline resolves, its result is the sorted list
    of some of the large groups. *)
Lemma topCountries_pipeline_resolves (pcre : Engine)
      (countryQuery : option string) (docs : list Movie.t)
      (groups : list CountrySummary.t) :
  topCountries_pipeline pcre countryQuery docs = Resolved groups ->
  exists keep,
    groups = sort_stage by_avgRating_desc (filter keep (large_groups docs)).
Proof.
  destruct countryQuery as [[| c text] |].
  - rewrite topCountries_pipeline_empty, topCountries_pipeline_unfiltered.
    intros H. injection H as <-.
    exists (fun _ => true). rewrite filter_true. reflexivity.
  - rewrite topCountries_pipeline_searched by discriminate.
    destruct (Regex.compile_pattern pcre true (String c text))
      as [accepts | error]; [| discriminate].
    intros H. injection H as <-.
    exists (fun g => op_regex_match accepts (CountrySummary._id g)).
    reflexivity.
  - rewrite topCountries_pipeline_unfiltered.
    intros H. injection H as <-.
    exists (fun _ => true). rewrite filter_true. reflexivity.
Qed.

Lemma getMoviesPerYear_up (req : Request) (docs : list Movie.t) :
  existsb Spec.dated_then_line_feed docs = false ->
  getMoviesPerYear req (Movie.Up docs)
  = {| response :=
         res_json
           (JYearCounts
              (sort_stage (ascending (field_leb Z.leb) YearCount._id)
                          (year_groups docs)));
       store_requests := 1 |}.
Proof.
  intros Hnone.
  unfold getMoviesPerYear, try_await, Movie.aggregate, Movie.send.
  cbn [outcome operations].
  rewrite (moviesPerYear_pipeline_eq docs Hnone). reflexivity.
Qed.

Lemma rating_up (req : Request) (docs : list Movie.t) :
  isNaN (parseFloat (params_rating req)) = false ->
  getMoviesWithRatingAboveSpecified req (Movie.Up docs)
  = {| response :=
         res_json
           (JMovies (filter (Spec.rating_at_least
                               (parseFloat (params_rating req)))
                            docs));
       store_requests := 1 |}.
Proof.
  intros Hnum.
  unfold getMoviesWithRatingAboveSpecified, try_await, Movie.exec.
  cbn [Movie.find Movie.filter_of Movie.sort_of Movie.limit_of Movie.cast].
  unfold Movie.castNumber. rewrite Hnum. cbn [Movie.send outcome operations].
  do 3 f_equal. apply filter_ext. intros d. unfold Spec.rating_at_least.
  apply op_gte_number, Hnum.
Qed.

Lemma rating_down (req : Request) (reason : string) :
  isNaN (parseFloat (params_rating req)) = false ->
  getMoviesWithRatingAboveSpecified req (Movie.Down reason)
  = {| response := res_status_json 500 (JMessage reason);
       store_requests := 1 |}.
Proof.
  intros Hnum.
  unfold getMoviesWithRatingAboveSpecified, try_await, Movie.exec.
  cbn [Movie.find Movie.filter_of Movie.cast].
  unfold Movie.castNumber. rewrite Hnum. reflexivity.
Qed.

(** What the handler of a route answers, case by case. *)
Lemma router_cases (pcre : Engine) (r : Route) (req : Request)
      (db : Movie.Store) :
  let served := router pcre r req db in
  (status (response served) = 200 /\ store_requests served = 1
   /\ exists docs, db = Movie.Up docs)
  \/ (status (response served) = 404 /\ store_requests served = 1
      /\ r = top_countries /\ truthy (query_country req) = true
      /\ exists docs, db = Movie.Up docs)
  \/ (status (response served) = 500 /\ store_requests served = 1
      /\ exists text, body (response served) = JMessage text)
  \/ (status (response served) = 500 /\ store_requests served = 0
      /\ r = rating /\ isNaN (parseFloat (params_rating req)) = true
      /\ exists text, body (response served) = JMessage text).
Proof.
  destruct r; cbn [router].
  - destruct db as [docs | reason].
    + rewrite getAllMovies_up. left. cbn. eauto.
    + right. right. left. cbn. eauto.
  - destruct (isNaN (parseFloat (params_rating req))) eqn:E.
    + rewrite (rating_cast_rejected req db E). right. right. right.
      cbn [response store_requests res_status_json status body]. eauto 6.
    + destruct db as [docs | reason].
      * rewrite (rating_up req docs E). left. cbn. eauto.
      * rewrite (rating_down req reason E). right. right. left. cbn. eauto.
  - destruct db as [docs | reason].
    + rewrite getMoviesWithBestRating_up. left. cbn. eauto.
    + right. right. left. cbn. eauto.
  - destruct db as [docs | reason].
    + destruct (existsb Spec.dated_then_line_feed docs) eqn:E.
      * destruct (getMoviesPerYear_fails req docs E) as [text ->].
        right. right. left. cbn. eauto.
      * rewrite (getMoviesPerYear_up req docs E). left. cbn. eauto.
    + right. right. left. cbn. eauto.
  - unfold getTopCountriesByRating, Movie.aggregate, Movie.send, try_await.
    destruct db as [docs | reason]; cbn [outcome operations].
    + destruct (topCountries_pipeline pcre (query_country req) docs)
        as [groups | error] eqn:E.
      * destruct (topCountries_pipeline_resolves _ _ _ E) as [keep ->].
        destruct (truthy (query_country req)
                  && (List.length
                        (sort_stage by_avgRating_desc
                                    (filter keep (large_groups docs))) =? 0))
                 eqn:T.
        -- right. left. apply andb_true_iff in T. cbn. intuition eauto.
        -- left. cbn. eauto.
      * right. right. left. cbn. eauto.
    + right. right. left. cbn. eauto.
Qed.

(** X1.  Whatever the route, the request, the state of the store and the
    engine's verdict on a pattern text, a handler answers 200, 404 or 500
    and nothing else.  It answers 404 only on the top-countries route with
    a non-empty country parameter and a reachable store, and 200 only on a
    reachable store.  Every 500 carries a message, and a store that fails
    the request is always answered with 500. *)
Theorem router_status_codes (pcre : Engine) (r : Route) (req : Request)
        (db : Movie.Store) :
  let served := router pcre r req db in
  (status (response served) = 200 \/ status (response served) = 404
   \/ status (response served) = 500)
  /\ (status (response served) = 404 ->
      r = top_countries /\ truthy (query_country req) = true
      /\ exists docs, db = Movie.Up docs)
  /\ (status (response served) = 200 -> exists docs, db = Movie.Up docs)
  /\ (status (response served) = 500 ->
      exists text, body (response served) = JMessage text)
  /\ (forall reason, db = Movie.Down reason ->
                     status (response served) = 500).
Proof.
  intros served. pose proof (router_cases pcre r req db) as H.
  fold served in H.
  destruct H as [[H1 [_ H2]] | [[H1 [_ [H2 [H3 H4]]]]
                               | [[H1 [_ H2]] | [H1 [_ [H2 [H3 H4]]]]]]];
    rewrite H1;
    (split; [auto |]); repeat split; try discriminate; auto.
  - intros reason ->. destruct H2 as [docs H2]. discriminate H2.
  - intros reason ->. destruct H4 as [docs H4]. discriminate H4.
Qed.


(** ** Thresholds and ranks *)

Lemma Num_geb_trans (x y z : num) :
  Num.geb x y = true -> Num.geb y z = true -> Num.geb x z = true.
Proof.
  destruct x, y, z; simpl; try discriminate; auto.
  rewrite !Qle_bool_iff. intros H1 H2. eapply Qle_trans; eassumption.
Qed.

Lemma Num_geb_not_NaN (x r : num) : Num.geb x r = true -> isNaN r = false.
Proof. destruct x, r; simpl; try discriminate; reflexivity. Qed.

(** X3.  Raising the threshold only removes records: when the rating
    parameters of two requests parse to [r1 <= r2], the answer to the
    second is the answer to the first, in the same order, without the
    records rated below [r2]. *)
Theorem ListByMinimumRating_monotone (req1 req2 : Request) (r1 r2 : num)
        (docs : list Movie.t) :
  parseFloat (params_rating req1) = r1 ->
  parseFloat (params_rating req2) = r2 ->
  isNaN r1 = false ->
  Num.geb r2 r1 = true ->
  exists lower higher,
    response (getMoviesWithRatingAboveSpecified req1 (Movie.Up docs))
    = res_json (JMovies lower)
    /\ response (getMoviesWithRatingAboveSpecified req2 (Movie.Up docs))
       = res_json (JMovies higher)
    /\ higher = filter (Spec.rating_at_least r2) lower
    /\ forall d, In d higher -> In d lower.
Proof.
  intros H1 H2 Hnum Hle.
  assert (Hnum2 : isNaN r2 = false) by (destruct r2, r1; try discriminate; reflexivity).
  exists (filter (Spec.rating_at_least r1) docs),
         (filter (Spec.rating_at_least r2) docs).
  assert (Hsub : filter (Spec.rating_at_least r2) docs
                 = filter (Spec.rating_at_least r2)
                          (filter (Spec.rating_at_least r1) docs)).
  { rewrite filter_filter. apply filter_ext. intros d.
    unfold Spec.rating_at_least.
    destruct (Movie.ReviewRating d) as [| | x]; try reflexivity.
    destruct (Num.geb x r2) eqn:E; [| symmetry; apply andb_false_r].
    rewrite (Num_geb_trans _ _ _ E Hle). reflexivity. }
  split; [rewrite rating_up by (rewrite H1; exact Hnum); rewrite H1; reflexivity |].
  split; [rewrite rating_up by (rewrite H2; exact Hnum2); rewrite H2; reflexivity |].
  split; [exact Hsub |].
  intros d Hd. rewrite Hsub in Hd. apply filter_In in Hd. tauto.
Qed.

Lemma ListByMinimumRating_monotone_witness :
  parseFloat (params_rating (request "3" None)) = Fin (3 # 1)
  /\ parseFloat (params_rating (request "7.5" None)) = Fin (15 # 2)
  /\ isNaN (Fin (3 # 1)) = false
  /\ Num.geb (Fin (15 # 2)) (Fin (3 # 1)) = true
  /\ exists lower higher,
      response (getMoviesWithRatingAboveSpecified (request "3" None)
                                                  (Movie.Up usa_10))
      = res_json (JMovies lower)
      /\ response (getMoviesWithRatingAboveSpecified (request "7.5" None)
                                                     (Movie.Up usa_10))
         = res_json (JMovies higher)
      /\ higher = filter (Spec.rating_at_least (Fin (15 # 2))) lower
      /\ forall d, In d higher -> In d lower.
Proof.
  repeat (split; [reflexivity |]).
  apply (ListByMinimumRating_monotone
           (request "3" None) (request "7.5" None)
           (r1 := Fin (3 # 1)) (r2 := Fin (15 # 2)) usa_10);
    reflexivity.
Defined.

Lemma sorted_app_ranked {D} (R : D -> D -> Prop) (l1 l2 : list D) :
  StronglySorted R (l1 ++ l2) ->
  forall a b, In a l1 -> In b l2 -> R a b.
Proof.
  induction l1 as [| x l1 IH]; cbn [app]; intros Hs a b Ha Hb; [destruct Ha |].
  apply StronglySorted_inv in Hs. destruct Hs as [Hs Hx].
  destruct Ha as [<- | Ha].
  - rewrite Forall_forall in Hx. apply Hx. apply in_or_app. right. exact Hb.
  - apply IH; assumption.
Qed.

(** X4.  TopRated splits the collection: the records it returns together
    with the records it leaves out are the whole collection, it returns
    10 records or the whole collection when that is smaller, and no
    record it leaves out has a rating above that of a record it returns
    (a missing or null rating being below every number). *)
Theorem TopRated_outranks_the_rest (req : Request) (docs : list Movie.t) :
  exists movies rest,
    response (getMoviesWithBestRating req (Movie.Up docs))
    = res_json (JMovies movies)
    /\ Permutation docs (movies ++ rest)
    /\ List.length movies = Nat.min 10 (List.length docs)
    /\ (List.length docs <= 10 -> rest = [])
    /\ forall a b,
        In a movies -> In b rest ->
        field_leb Num.leb (Movie.ReviewRating b) (Movie.ReviewRating a)
        = true.
Proof.
  exists (firstn 10 (sort_stage by_rating_desc docs)),
         (skipn 10 (sort_stage by_rating_desc docs)).
  split; [rewrite getMoviesWithBestRating_up; reflexivity |].
  split; [rewrite firstn_skipn; apply sort_stage_perm |].
  split; [rewrite length_firstn, sort_stage_length; reflexivity |].
  split.
  - intros Hle. apply skipn_all2. rewrite sort_stage_length. exact Hle.
  - intros a b Ha Hb.
    apply (@sorted_app_ranked _ (fun a b => by_rating_desc a b = true)
             (firstn 10 (sort_stage by_rating_desc docs))
             (skipn 10 (sort_stage by_rating_desc docs))); try assumption.
    rewrite firstn_skipn.
    apply sort_stage_sorted;
      [apply by_rating_desc_total | apply by_rating_desc_trans].
Qed.

Lemma Num_leb_geb_trans (x y r : num) :
  Num.leb y x = true -> Num.geb y r = true -> Num.geb x r = true.
Proof.
  destruct x, y, r; simpl; try discriminate; auto.
  rewrite !Qle_bool_iff. intros H1 H2. eapply Qle_trans; eassumption.
Qed.

(** In a list sorted from best to worst, a property that every better
    element inherits holds of the first [n] elements as soon as [n]
    elements have it. *)
Lemma sorted_prefix_has {D} (R : D -> D -> Prop) (P : D -> bool)
      (l : list D) :
  (forall a b, R a b -> P b = true -> P a = true) ->
  StronglySorted R l ->
  forall n, n <= List.length (filter P l) -> forallb P (firstn n l) = true.
Proof.
  intros Hup Hs. induction Hs as [| a l Hs IH Ha]; intros n Hn.
  - rewrite firstn_nil. reflexivity.
  - destruct n as [| n]; [reflexivity |].
    cbn [firstn forallb filter] in *.
    destruct (P a) eqn:E.
    + cbn [List.length] in Hn. rewrite IH by lia. reflexivity.
    + exfalso.
      assert (Hnone : filter P l = []).
      { rewrite <- (filter_false l). apply filter_ext_in.
        rewrite Forall_forall in Ha.
        intros b Hb. destruct (P b) eqn:Eb; [| reflexivity].
        rewrite (Hup a b (Ha b Hb) Eb) in E. discriminate. }
      rewrite Hnone in Hn. cbn in Hn. lia.
Qed.

(** X5.  When at least 10 records have a rating of at least [r], every
    record TopRated returns is one that ListByMinimumRating returns for
    [r]. *)
Theorem TopRated_within_ListByMinimumRating (req : Request) (r : num)
        (docs : list Movie.t) :
  parseFloat (params_rating req) = r ->
  10 <= List.length (filter (Spec.rating_at_least r) docs) ->
  exists top above,
    response (getMoviesWithBestRating req (Movie.Up docs))
    = res_json (JMovies top)
    /\ response (getMoviesWithRatingAboveSpecified req (Movie.Up docs))
       = res_json (JMovies above)
    /\ List.length top = 10
    /\ forall d, In d top -> In d above.
Proof.
  intros Hr Hmany.
  assert (Hnum : isNaN r = false).
  { destruct (filter (Spec.rating_at_least r) docs) as [| d l] eqn:E;
      [cbn in Hmany; lia |].
    assert (Hd : In d (filter (Spec.rating_at_least r) docs))
      by (rewrite E; left; reflexivity).
    apply filter_In in Hd. destruct Hd as [_ Hd].
    unfold Spec.rating_at_least in Hd.
    destruct (Movie.ReviewRating d) as [| | x]; try discriminate.
    exact (Num_geb_not_NaN _ _ Hd). }
  exists (firstn 10 (sort_stage by_rating_desc docs)),
         (filter (Spec.rating_at_least r) docs).
  split; [rewrite getMoviesWithBestRating_up; reflexivity |].
  split; [rewrite rating_up by (rewrite Hr; exact Hnum); rewrite Hr;
          reflexivity |].
  assert (Hlen : 10 <= List.length docs).
  { etransitivity; [exact Hmany | apply filter_length_le]. }
  split; [apply firstn_length_le; rewrite sort_stage_length; exact Hlen |].
  intros d Hd. apply filter_In. split.
  - apply In_firstn in Hd.
    exact (proj1 (sort_stage_In by_rating_desc docs d) Hd).
  - assert (Hall : forallb (Spec.rating_at_least r)
                           (firstn 10 (sort_stage by_rating_desc docs))
                   = true).
    { apply (@sorted_prefix_has _ (fun a b => by_rating_desc a b = true)).
      - intros a b Hab Hb. unfold by_rating_desc, descending in Hab.
        unfold Spec.rating_at_least in *.
        destruct (Movie.ReviewRating b) as [| | y]; try discriminate.
        destruct (Movie.ReviewRating a) as [| | x]; try discriminate.
        cbn [field_leb] in Hab. exact (Num_leb_geb_trans _ _ _ Hab Hb).
      - apply sort_stage_sorted;
          [apply by_rating_desc_total | apply by_rating_desc_trans].
      - rewrite <- (Permutation_length
                      (filter_perm (Spec.rating_at_least r)
                                   (sort_stage_perm by_rating_desc docs))).
        exact Hmany. }
    rewrite forallb_forall in Hall. apply Hall, Hd.
Qed.

Lemma TopRated_within_ListByMinimumRating_witness :
  parseFloat (params_rating (request "1" None)) = Fin (1 # 1)
  /\ 10 <= List.length (filter (Spec.rating_at_least (Fin (1 # 1))) usa_10)
  /\ exists top above,
      response (getMoviesWithBestRating (request "1" None) (Movie.Up usa_10))
      = res_json (JMovies top)
      /\ response (getMoviesWithRatingAboveSpecified (request "1" None)
                                                     (Movie.Up usa_10))
         = res_json (JMovies above)
      /\ List.length top = 10
      /\ forall d, In d top -> In d above.
Proof.
  split; [reflexivity |]. split; [vm_compute; lia |].
  apply (TopRated_within_ListByMinimumRating
           (request "1" None) (r := Fin (1 # 1)) usa_10);
    [reflexivity | vm_compute; lia].
Defined.

(** ** Year counts *)

Lemma year_of_dated_range (d : Movie.t) :
  Spec.dated d = true -> (2000 <= Spec.year_of d <= 2099)%Z.
Proof.
  unfold Spec.dated, Spec.year_of.
  destruct (Movie.ReleaseDate d) as [| | s]; try discriminate.
  generalize (chars s). intros l H.
  destruct l as [| d1 [| c2 [| c3 [| c4 [| c5 [| c6 [| c7 [| c8 [| c9 [| c10 l]]]]]]]]]];
    simpl in H; try discriminate; split_andb;
    unfold Spec.year_of_date; cbn [List.length Nat.sub skipn];
    rewrite digits_value_two;
    repeat match goal with
           | E : is_digit ?c = true |- _ =>
               apply digit_value_range in E
           end; lia.
Qed.

Lemma dated_in_In (y : Z) (docs : list Movie.t) (d : Movie.t) :
  In d (Spec.dated_in y docs) <->
  In d docs /\ Spec.dated d = true /\ Spec.year_of d = y.
Proof.
  unfold Spec.dated_in. rewrite filter_In, andb_true_iff, Z.eqb_eq. tauto.
Qed.

Lemma increasing_years_bounded (hi : Z) (l : list YearCount.t) :
  StronglySorted Spec.year_before l ->
  forall lo,
    (forall g, In g l -> year_within lo hi g) ->
    (Z.of_nat (List.length l) <= Z.max 0 (hi - lo + 1))%Z.
Proof.
  induction 1 as [| a l Hs IH Ha]; intros lo Hin; [cbn; lia |].
  destruct (Hin a (or_introl eq_refl)) as [x [Hx Hrange]].
  assert (Hrest : forall g, In g l -> year_within (x + 1) hi g).
  { intros g Hg. destruct (Hin g (or_intror Hg)) as [y [Hy Hyr]].
    rewrite Forall_forall in Ha. specialize (Ha g Hg).
    unfold Spec.year_before in Ha. rewrite Hx, Hy in Ha.
    exists y. split; [exact Hy | lia]. }
  specialize (IH (x + 1)%Z Hrest). cbn [List.length]. lia.
Qed.

Lemma getMoviesPerYear_sorted (docs : list Movie.t) :
  StronglySorted Spec.year_before
    (sort_stage (ascending (field_leb Z.leb) YearCount._id)
                (year_groups docs)).
Proof.
  apply ascending_strict.
  - apply sort_stage_sorted.
    + intros a b. unfold ascending. apply (field_leb_total Z.leb Z_leb_total).
    + intros a b c. unfold ascending.
      apply (field_leb_trans Z.leb Z_leb_trans).
  - eapply Permutation_NoDup;
      [apply Permutation_map, year_groups_sorted_perm |].
    rewrite year_groups_ids. apply (group_keys_spec Z.eqb Z.eqb_eq).
  - intros g Hg. destruct (year_groups_In docs g) as [y [Hy _]].
    + eapply Permutation_in;
        [symmetry; apply year_groups_sorted_perm | exact Hg].
    + exists y. exact Hy.
Qed.

(** X6.  Every year CountByReleaseYear reports lies between 2000 and
    2099, and a list of year counts it answers with has at most 100
    entries, however many records the store holds.  It answers with such
    a list on every store in which no ReleaseDate is the date shape
    followed by a line feed. *)
Theorem CountByReleaseYear_years_in_century (req : Request)
        (docs : list Movie.t) :
  (existsb Spec.dated_then_line_feed docs = false ->
   exists result,
     getMoviesPerYear req (Movie.Up docs)
     = {| response := res_json (JYearCounts result); store_requests := 1 |})
  /\ forall result,
      response (getMoviesPerYear req (Movie.Up docs))
      = res_json (JYearCounts result) ->
      (forall g, In g result -> year_within 2000 2099 g)
      /\ List.length result <= 100.
Proof.
  split.
  { intros Hnone. eexists. apply (getMoviesPerYear_up req docs Hnone). }
  intros result Hres.
  destruct (existsb Spec.dated_then_line_feed docs) eqn:E.
  { destruct (getMoviesPerYear_fails req docs E) as [text Hfail].
    rewrite Hfail in Hres. discriminate Hres. }
  rewrite (getMoviesPerYear_up req docs E) in Hres.
  cbn [response] in Hres. injection Hres as <-.
  assert (Hin : forall g,
             In g (sort_stage (ascending (field_leb Z.leb) YearCount._id)
                              (year_groups docs)) ->
             year_within 2000 2099 g).
  { intros g Hg.
    apply (proj1 (sort_stage_In _ _ _)) in Hg.
    destruct (year_groups_In docs g Hg) as [y [Hy [Hcount Hpos]]].
    exists y. split; [exact Hy |].
    destruct (Spec.dated_in y docs) as [| d l] eqn:Ed;
      [rewrite Hcount in Hpos; cbn in Hpos; lia |].
    assert (Hd : In d (Spec.dated_in y docs))
      by (rewrite Ed; left; reflexivity).
    apply dated_in_In in Hd. destruct Hd as [_ [Hd <-]].
    apply year_of_dated_range, Hd. }
  split; [exact Hin |].
  pose proof (@increasing_years_bounded 2099%Z _
                (getMoviesPerYear_sorted docs) 2000%Z Hin).
  lia.
Qed.

Lemma CountByReleaseYear_years_in_century_witness :
  response (getMoviesPerYear (request "" None) (Movie.Up usa_10))
  = res_json (JYearCounts [{| YearCount._id := Val 2098%Z;
                              YearCount.count := 10 |}])
  /\ (forall g,
         In g [{| YearCount._id := Val 2098%Z; YearCount.count := 10 |}] ->
         year_within 2000 2099 g)
  /\ 1 <= 100.
Proof.
  split; [vm_compute; reflexivity |].
  apply (proj2 (CountByReleaseYear_years_in_century (request "" None)
                                                    usa_10)).
  vm_compute. reflexivity.
Defined.

(** What the year groups are, before they are sorted. *)
Lemma year_groups_In_iff (docs : list Movie.t) (g : YearCount.t) :
  In g (year_groups docs) <->
  exists y,
    Spec.dated_in y docs <> []
    /\ g = {| YearCount._id := Val y;
              YearCount.count := List.length (Spec.dated_in y docs) |}.
Proof.
  split.
  - intros Hg. destruct (year_groups_In docs g Hg) as [y [Hy [Hc Hpos]]].
    exists y. split.
    + intros E. rewrite E in Hc. cbn in Hc. lia.
    + destruct g as [i c]. cbn in *. congruence.
  - intros [y [Hne ->]]. unfold year_groups. apply in_map_iff.
    exists (Val y, Spec.dated_in y docs). split; [reflexivity |].
    apply (group_stage_In Z.eqb). cbn [fst snd].
    split; [| symmetry; apply dated_in_filter].
    apply (group_keys_spec Z.eqb Z.eqb_eq).
    destruct (Spec.dated_in y docs) as [| d l] eqn:E; [congruence |].
    assert (Hd : In d (Spec.dated_in y docs)) by (rewrite E; left; reflexivity).
    apply dated_in_In in Hd. destruct Hd as [Hd [Hdated <-]].
    exists d. split; [apply filter_In; auto | reflexivity].
Qed.

Lemma year_groups_NoDup (docs : list Movie.t) : NoDup (year_groups docs).
Proof.
  apply (NoDup_map_inv YearCount._id). rewrite year_groups_ids.
  apply (group_keys_spec Z.eqb Z.eqb_eq).
Qed.

Lemma dated_in_perm (y : Z) (docs docs' : list Movie.t) :
  Permutation docs docs' ->
  Permutation (Spec.dated_in y docs) (Spec.dated_in y docs').
Proof. apply filter_perm. Qed.

Lemma year_groups_perm (docs docs' : list Movie.t) :
  Permutation docs docs' ->
  Permutation (year_groups docs) (year_groups docs').
Proof.
  intros Hp. apply NoDup_Permutation; try apply year_groups_NoDup.
  assert (Hone : forall l l', Permutation l l' ->
                   forall g, In g (year_groups l) -> In g (year_groups l')).
  { intros l l' Hll g Hg. apply year_groups_In_iff in Hg.
    destruct Hg as [y [Hne ->]]. apply year_groups_In_iff. exists y.
    pose proof (dated_in_perm y Hll) as Hy. split.
    - intros E. rewrite E in Hy. symmetry in Hy.
      apply Permutation_nil in Hy. contradiction.
    - rewrite (Permutation_length Hy). reflexivity. }
  intros g. split; apply Hone; [exact Hp | symmetry; exact Hp].
Qed.

(** Two strictly increasing lists with the same elements are equal. *)
Lemma increasing_unique (l l' : list YearCount.t) :
  StronglySorted Spec.year_before l ->
  StronglySorted Spec.year_before l' ->
  Permutation l l' -> l = l'.
Proof.
  intros Hs. revert l'. induction Hs as [| a l Hs IH Ha]; intros l' Hs' Hp.
  - apply Permutation_nil in Hp. congruence.
  - destruct Hs' as [| a' l' Hs' Ha'].
    + symmetry in Hp. apply Permutation_nil in Hp. discriminate.
    + assert (Heq : a = a').
      { assert (H1 : In a (a' :: l'))
          by (eapply Permutation_in; [exact Hp | left; reflexivity]).
        assert (H2 : In a' (a :: l))
          by (eapply Permutation_in; [symmetry; exact Hp | left; reflexivity]).
        destruct H1 as [H1 | H1]; [congruence |].
        destruct H2 as [H2 | H2]; [congruence |].
        rewrite Forall_forall in Ha, Ha'.
        specialize (Ha a' H2). specialize (Ha' a H1).
        unfold Spec.year_before in *.
        destruct (YearCount._id a), (YearCount._id a'); try contradiction.
        lia. }
      subst a'. f_equal. apply IH; [exact Hs' |].
      eapply Permutation_cons_inv. exact Hp.
Qed.

Lemma existsb_perm {A} (p : A -> bool) (l l' : list A) :
  Permutation l l' -> existsb p l = existsb p l'.
Proof.
  intros Hp. apply eq_true_iff_eq. rewrite !existsb_exists.
  split; intros [x [Hx Hpx]]; exists x; split; try exact Hpx.
  - eapply Permutation_in; [exact Hp | exact Hx].
  - eapply Permutation_in; [symmetry; exact Hp | exact Hx].
Qed.

(** X7.  The answer of CountByReleaseYear does not depend on the order
    in which the store holds its records: two stores with the same
    records are answered with the same status, and, when no ReleaseDate is
    the date shape followed by a line feed, with the same year counts. *)
Theorem CountByReleaseYear_ignores_store_order (req : Request)
        (docs docs' : list Movie.t) :
  Permutation docs docs' ->
  status (response (getMoviesPerYear req (Movie.Up docs)))
  = status (response (getMoviesPerYear req (Movie.Up docs')))
  /\ (existsb Spec.dated_then_line_feed docs = false ->
      getMoviesPerYear req (Movie.Up docs)
      = getMoviesPerYear req (Movie.Up docs')).
Proof.
  intros Hp.
  pose proof (existsb_perm Spec.dated_then_line_feed Hp) as Hsame.
  assert (Heq : existsb Spec.dated_then_line_feed docs = false ->
                getMoviesPerYear req (Movie.Up docs)
                = getMoviesPerYear req (Movie.Up docs')).
  { intros Hnone.
    rewrite (getMoviesPerYear_up req docs Hnone).
    rewrite (getMoviesPerYear_up req docs') by (rewrite <- Hsame; exact Hnone).
    do 3 f_equal.
    apply increasing_unique; try apply getMoviesPerYear_sorted.
    rewrite <- !year_groups_sorted_perm. apply year_groups_perm, Hp. }
  split; [| exact Heq].
  destruct (existsb Spec.dated_then_line_feed docs) eqn:E.
  - destruct (getMoviesPerYear_fails req docs E) as [text ->].
    symmetry in Hsame.
    destruct (getMoviesPerYear_fails req docs' Hsame) as [text' ->].
    reflexivity.
  - rewrite (Heq eq_refl). reflexivity.
Qed.

Lemma CountByReleaseYear_ignores_store_order_witness :
  Permutation
    [movie 1 (Val "5-Jul-98") Absent Absent; movie 2 (Val "1-Jan-03") Null Null]
    [movie 2 (Val "1-Jan-03") Null Null; movie 1 (Val "5-Jul-98") Absent Absent]
  /\ getMoviesPerYear
       (request "" None)
       (Movie.Up [movie 1 (Val "5-Jul-98") Absent Absent;
                  movie 2 (Val "1-Jan-03") Null Null])
     = getMoviesPerYear
         (request "" None)
         (Movie.Up [movie 2 (Val "1-Jan-03") Null Null;
                    movie 1 (Val "5-Jul-98") Absent Absent]).
Proof.
  split; [apply perm_swap |].
  apply (CountByReleaseYear_ignores_store_order (request "" None)).
  - apply perm_swap.
  - reflexivity.
Defined.

(** ** Country summaries *)

Lemma list_sum_filter_le {A} (f : A -> nat) (p : A -> bool) (l : list A) :
  list_sum (map f (filter p l)) <= list_sum (map f l).
Proof.
  induction l as [| x l IH]; simpl; [lia |].
  destruct (p x); simpl; lia.
Qed.

Lemma list_sum_at_least {A} (f : A -> nat) (n : nat) (l : list A) :
  (forall x, In x l -> n <= f x) -> n * List.length l <= list_sum (map f l).
Proof.
  induction l as [| x l IH]; intros H; simpl; [lia |].
  pose proof (H x (or_introl eq_refl)) as Hx.
  assert (n * List.length l <= list_sum (map f l))
    by (apply IH; intros; apply H; right; assumption).
  lia.
Qed.

Lemma country_groups_total (docs : list Movie.t) :
  list_sum (map CountrySummary.movieCount (country_groups docs))
  = List.length (filter Spec.qualifying docs).
Proof.
  unfold country_groups. rewrite map_map. cbn [CountrySummary.movieCount].
  apply (group_stage_total String.eqb String.eqb_eq).
Qed.

(** X8.  TopCountriesByRating never returns more groups than a tenth of
    the stored records, with or without a filter and whatever the filter:
    the groups are disjoint and each stands for at least 10 records. *)
Theorem TopCountriesByRating_at_most_a_tenth (pcre : Engine) (req : Request)
        (docs : list Movie.t) (groups : list CountrySummary.t) :
  body (response (getTopCountriesByRating pcre req (Movie.Up docs)))
  = JCountries groups ->
  10 * List.length groups <= List.length docs.
Proof.
  unfold getTopCountriesByRating, Movie.aggregate, Movie.send, try_await.
  cbn [outcome operations response].
  destruct (topCountries_pipeline pcre (query_country req) docs)
    as [found | error] eqn:E; [| cbn; discriminate].
  destruct (topCountries_pipeline_resolves _ _ _ E) as [keep ->].
  intros Hbody.
  assert (Hgroups : List.length groups
                    <= List.length (filter keep (large_groups docs))).
  { destruct (truthy (query_country req)
              && (List.length
                    (sort_stage by_avgRating_desc
                                (filter keep (large_groups docs))) =? 0));
      cbn in Hbody; [discriminate |].
    injection Hbody as <-. rewrite sort_stage_length. lia. }
  pose proof (filter_length_le keep (large_groups docs)) as Hkeep.
  assert (Hlarge : 10 * List.length (large_groups docs)
                   <= list_sum (map CountrySummary.movieCount
                                    (large_groups docs))).
  { apply list_sum_at_least. intros g Hg. unfold large_groups in Hg.
    apply filter_In in Hg. destruct Hg as [_ Hg]. apply Nat.leb_le, Hg. }
  pose proof (list_sum_filter_le CountrySummary.movieCount
                (fun g => 10 <=? CountrySummary.movieCount g)
                (country_groups docs)) as Hsub.
  fold (large_groups docs) in Hsub. rewrite country_groups_total in Hsub.
  pose proof (filter_length_le Spec.qualifying docs). lia.
Qed.

Lemma TopCountriesByRating_at_most_a_tenth_witness :
  let groups :=
    [{| CountrySummary._id := Val "USA";
        CountrySummary.avgRating := Val (Fin (11 # 2));
        CountrySummary.movieCount := 10 |}] in
  body (response (getTopCountriesByRating
                    unconsulted (request "" (Some "us")) (Movie.Up usa_10)))
  = JCountries groups
  /\ 10 * List.length groups <= List.length usa_10.
Proof.
  intros groups.
  split; [vm_compute; reflexivity |].
  apply (@TopCountriesByRating_at_most_a_tenth
           unconsulted (request "" (Some "us")) usa_10 groups).
  vm_compute. reflexivity.
Defined.

(** ** Plain country filters *)

(** X9.  The country filter ignores letter case: two non-empty filters
    without pattern metacharacters that differ only in the case of their
    letters keep the same groups, so both requests are answered 200 with
    the same list, or both 404 (each message naming its own filter). *)
Theorem countryFilter_ignores_case (pcre : Engine)
        (rating text1 text2 : string)
        (docs : list Movie.t) :
  Spec.plain_text text1 = true ->
  Spec.plain_text text2 = true ->
  text1 <> "" ->
  map to_lower (chars text1) = map to_lower (chars text2) ->
  exists kept,
    getTopCountriesByRating pcre (request rating (Some text1)) (Movie.Up docs)
    = searched_answer text1 kept
    /\ getTopCountriesByRating pcre (request rating (Some text2))
                               (Movie.Up docs)
       = searched_answer text2 kept.
Proof.
  intros Hp1 Hp2 Hne1 Hcase.
  assert (Hne2 : text2 <> "").
  { intros ->. destruct text1; [congruence | discriminate]. }
  exists (sort_stage by_avgRating_desc
                     (filter (kept_by text1) (large_groups docs))).
  split; [apply getTopCountriesByRating_plain; assumption |].
  rewrite (getTopCountriesByRating_plain pcre rating docs Hp2 Hne2).
  do 2 f_equal. apply filter_ext. intros g. unfold kept_by.
  destruct (CountrySummary._id g); try reflexivity.
  unfold Spec.contains_ignoring_case. rewrite Hcase. reflexivity.
Qed.

Lemma countryFilter_ignores_case_witness :
  Spec.plain_text "us" = true
  /\ Spec.plain_text "US" = true
  /\ "us" <> ""
  /\ map to_lower (chars "us") = map to_lower (chars "US")
  /\ exists kept,
      getTopCountriesByRating unconsulted (request "" (Some "us"))
                              (Movie.Up usa_10)
      = searched_answer "us" kept
      /\ getTopCountriesByRating unconsulted (request "" (Some "US"))
                                 (Movie.Up usa_10)
         = searched_answer "US" kept.
Proof.
  split; [reflexivity |]. split; [reflexivity |].
  split; [discriminate |]. split; [reflexivity |].
  apply (@countryFilter_ignores_case unconsulted "" "us" "US" usa_10);
    [reflexivity | reflexivity | discriminate | reflexivity].
Defined.

Lemma contains_trans (a b c : list ascii) :
  Spec.contains a b = true -> Spec.contains b c = true ->
  Spec.contains a c = true.
Proof.
  rewrite !contains_spec.
  intros [pre1 [post1 ->]] [pre2 [post2 ->]].
  exists (pre2 ++ pre1), (post1 ++ post2).
  rewrite <- !app_assoc. reflexivity.
Qed.

(** X10.  A longer filter narrows the answer: when the filter [wide] is
    contained (ignoring case) in the filter [narrow], both without
    pattern metacharacters, every group kept for [narrow] is kept for
    [wide]. *)
Theorem countryFilter_narrows (pcre : Engine)
        (rating wide narrow : string)
        (docs : list Movie.t) :
  Spec.plain_text wide = true ->
  Spec.plain_text narrow = true ->
  wide <> "" ->
  Spec.contains_ignoring_case narrow wide = true ->
  exists kept_wide kept_narrow,
    getTopCountriesByRating pcre (request rating (Some wide)) (Movie.Up docs)
    = searched_answer wide kept_wide
    /\ getTopCountriesByRating pcre (request rating (Some narrow))
                               (Movie.Up docs)
       = searched_answer narrow kept_narrow
    /\ forall g, In g kept_narrow -> In g kept_wide.
Proof.
  intros Hp1 Hp2 Hne1 Hsub.
  assert (Hne2 : narrow <> "").
  { intros ->. unfold Spec.contains_ignoring_case in Hsub.
    destruct wide as [| c w]; [congruence |]. discriminate Hsub. }
  exists (sort_stage by_avgRating_desc
                     (filter (kept_by wide) (large_groups docs))),
         (sort_stage by_avgRating_desc
                     (filter (kept_by narrow) (large_groups docs))).
  split; [apply getTopCountriesByRating_plain; assumption |].
  split; [apply getTopCountriesByRating_plain; assumption |].
  intros g. rewrite !sort_stage_In, !filter_In. intros [Hg Hkept].
  split; [exact Hg |]. unfold kept_by in *.
  destruct (CountrySummary._id g) as [| | country]; try discriminate.
  unfold Spec.contains_ignoring_case in *.
  eapply contains_trans; eassumption.
Qed.

Lemma countryFilter_narrows_witness :
  Spec.plain_text "s" = true
  /\ Spec.plain_text "USA" = true
  /\ "s" <> ""
  /\ Spec.contains_ignoring_case "USA" "s" = true
  /\ exists kept_wide kept_narrow,
      getTopCountriesByRating unconsulted (request "" (Some "s"))
                              (Movie.Up usa_10)
      = searched_answer "s" kept_wide
      /\ getTopCountriesByRating unconsulted (request "" (Some "USA"))
                                 (Movie.Up usa_10)
         = searched_answer "USA" kept_narrow
      /\ forall g, In g kept_narrow -> In g kept_wide.
Proof.
  split; [reflexivity |]. split; [reflexivity |].
  split; [discriminate |]. split; [reflexivity |].
  apply (@countryFilter_narrows unconsulted "" "s" "USA" usa_10);
    [reflexivity | reflexivity | discriminate | reflexivity].
Defined.

(** ** The rating parameter *)

Lemma digit_starts_number (c : ascii) :
  is_digit c = true ->
  isStrWhiteSpaceChar c = false /\ Ascii.eqb "I" c = false.
Proof.
  destruct c as [[] [] [] [] [] [] [] []]; vm_compute; intros H;
    try discriminate H; split; reflexivity.
Qed.

Lemma span_digits_run (ds rest : list ascii) :
  forallb is_digit ds = true -> ends_number rest = true ->
  span_digits (ds ++ rest) = (ds, rest).
Proof.
  intros Hds Hrest. induction ds as [| d ds IH]; cbn [app].
  - destruct rest as [| c rest]; [reflexivity |].
    cbn [span_digits]. cbn [ends_number] in Hrest.
    apply negb_true_iff in Hrest. rewrite !orb_false_iff in Hrest.
    destruct Hrest as [[[-> _] _] _]. reflexivity.
  - cbn [forallb] in Hds. apply andb_true_iff in Hds.
    destruct Hds as [Hd Hds]. cbn [span_digits]. rewrite Hd, (IH Hds).
    reflexivity.
Qed.

(** A run of digits followed by text that cannot continue the number
    parses to the value of the digits. *)
Lemma parseFloat_digits (ds rest : list ascii) :
  ds <> [] -> forallb is_digit ds = true -> ends_number rest = true ->
  parseFloat (string_of_list_ascii (ds ++ rest))
  = Fin (Qred (inject_Z (digits_value ds))).
Proof.
  intros Hne Hds Hrest. unfold parseFloat, chars.
  rewrite list_ascii_of_string_of_list_ascii.
  destruct ds as [| d ds]; [congruence |].
  pose proof Hds as Hall. cbn [forallb] in Hds.
  apply andb_true_iff in Hds. destruct Hds as [Hd _].
  destruct (digit_starts_number d Hd) as [Hws HI].
  destruct (digit_not_sign d Hd) as [_ [Hminus Hplus]].
  cbn [app trimStart]. rewrite Hws. unfold take_sign. rewrite Hminus, Hplus.
  cbn [list_ascii_of_string starts_with]. rewrite HI. cbn [andb].
  change (d :: ds ++ rest) with ((d :: ds) ++ rest).
  rewrite (span_digits_run _ _ Hall Hrest).
  assert (Htail :
            (match rest with
             | [] => ([], rest)
             | c :: r => if Ascii.eqb c "." then span_digits r else ([], rest)
             end) = (@nil ascii, rest)
            /\ exponent_part rest = 0%Z).
  { destruct rest as [| c rest]; [split; reflexivity |].
    cbn [ends_number] in Hrest. apply negb_true_iff in Hrest.
    rewrite !orb_false_iff in Hrest. destruct Hrest as [[[_ Hdot] He] HE].
    unfold exponent_part. rewrite Hdot, He, HE. split; reflexivity. }
  destruct Htail as [Htail Hexp]. rewrite Htail, Hexp.
  f_equal. apply Qred_complete.
  change (digits_value []) with 0%Z.
  change (10 ^ Z.of_nat (List.length (@nil ascii)))%Z with 1%Z.
  change (Qpower (inject_Z 10) 0) with 1%Q.
  rewrite Z.mul_1_l, Z.mul_1_r, Z.add_0_r.
  change (inject_Z 1) with 1%Q. field.
Qed.

(** X11.  ListByMinimumRating reads the rating parameter as the number
    at its start: text after a run of digits that cannot continue the
    number (anything but a digit, a point or an exponent mark) is
    ignored.  The request is answered as if the digits alone had been
    sent, and in neither form is the threshold NaN. *)
Theorem rating_trailing_text_ignored (ds rest : list ascii)
        (country : option string) (db : Movie.Store) :
  ds <> [] ->
  forallb is_digit ds = true ->
  ends_number rest = true ->
  getMoviesWithRatingAboveSpecified
    (request (string_of_list_ascii (ds ++ rest)) country) db
  = getMoviesWithRatingAboveSpecified
      (request (string_of_list_ascii ds) country) db
  /\ parseFloat (string_of_list_ascii (ds ++ rest))
     = parseFloat (string_of_list_ascii ds)
  /\ isNaN (parseFloat (string_of_list_ascii (ds ++ rest))) = false.
Proof.
  intros Hne Hds Hrest.
  assert (Hsame : parseFloat (string_of_list_ascii (ds ++ rest))
                  = parseFloat (string_of_list_ascii ds)).
  { rewrite (@parseFloat_digits ds rest Hne Hds Hrest).
    rewrite <- (app_nil_r ds) at 2.
    rewrite (@parseFloat_digits ds [] Hne Hds eq_refl). reflexivity. }
  split.
  - unfold getMoviesWithRatingAboveSpecified. cbn [params_rating request].
    rewrite Hsame. reflexivity.
  - split; [exact Hsame |].
    rewrite (@parseFloat_digits ds rest Hne Hds Hrest). reflexivity.
Qed.

Lemma rating_trailing_text_ignored_witness :
  chars "7" <> []
  /\ forallb is_digit (chars "7") = true
  /\ ends_number (chars "abc") = true
  /\ getMoviesWithRatingAboveSpecified (request "7abc" None) (Movie.Up usa_10)
     = getMoviesWithRatingAboveSpecified (request "7" None) (Movie.Up usa_10).
Proof.
  split; [discriminate |]. split; [reflexivity |]. split; [reflexivity |].
  apply (@rating_trailing_text_ignored (chars "7") (chars "abc") None
                                       (Movie.Up usa_10));
    [discriminate | reflexivity | reflexivity].
Defined.
